(** * gollipse: the ellipse package, embedded and verified

    The repository holds three revisions of [ellipse/ellipse.go]:
    - [Rev1]: [Ellipse{a, b, angle}], [New(a, b, angle)],
      [NewDataConfidence(x, y, confidence)];
    - [Rev2]: [Ellipse{a, b, angle, xmean, ymean}], [New(a, b, angle)],
      [NewWithConfidence(data, confidence)];
    - [Rev3]: [Ellipse{x, y, a, b, angle}], [New(x, y, a, b, angle)],
      [NewWithDataConfidence(data, confidence)].

    Go's [float64] is read as exact real arithmetic extended with the
    IEEE special values [+Inf], [-Inf] and [NaN]: rounding, overflow of
    finite results and the sign of zero are not represented.  The
    functions of [math], [gonum] and [plotter] the package calls are
    given by their documented behaviour in that arithmetic; the
    principal component analysis, whose eigenvectors are only determined
    up to sign, is a parameter of the constructors that use it. *)

From Stdlib Require Import Reals Lra Lia ZArith String List Bool.
Import ListNotations.

Local Open Scope R_scope.

(** ** float64 *)

Inductive float64 : Type :=
| Fin (r : R)
| PInf
| NInf
| NaN.

Definition Rleb (x y : R) : bool := if Rle_dec x y then true else false.
Definition Rltb (x y : R) : bool := if Rlt_dec x y then true else false.

(** [signed r pos neg]: the infinity picked by the sign of [r]; an
    undetermined sign ([r = 0]) gives [NaN]. *)
Definition signed (r : R) (pos neg : float64) : float64 :=
  if Rltb 0 r then pos else if Rltb r 0 then neg else NaN.

Definition fneg (x : float64) : float64 :=
  match x with
  | Fin r => Fin (- r)
  | PInf => NInf
  | NInf => PInf
  | NaN => NaN
  end.

Definition fadd (x y : float64) : float64 :=
  match x, y with
  | NaN, _ | _, NaN => NaN
  | Fin a, Fin b => Fin (a + b)
  | PInf, NInf | NInf, PInf => NaN
  | PInf, _ | _, PInf => PInf
  | NInf, _ | _, NInf => NInf
  end.

Definition fsub (x y : float64) : float64 := fadd x (fneg y).

Definition fmul (x y : float64) : float64 :=
  match x, y with
  | NaN, _ | _, NaN => NaN
  | Fin a, Fin b => Fin (a * b)
  | Fin a, PInf | PInf, Fin a => signed a PInf NInf
  | Fin a, NInf | NInf, Fin a => signed a NInf PInf
  | PInf, PInf | NInf, NInf => PInf
  | PInf, NInf | NInf, PInf => NInf
  end.

(** A zero divisor is taken as [+0]: the only divisor of this package
    that can be zero is the square [b*b] of [Eccentricity]. *)
Definition fdiv (x y : float64) : float64 :=
  match x, y with
  | NaN, _ | _, NaN => NaN
  | Fin a, Fin b => if Rltb 0 b then Fin (a / b)
                    else if Rltb b 0 then Fin (a / b)
                    else signed a PInf NInf
  | Fin _, _ => Fin 0
  | PInf, Fin b => if Rltb b 0 then NInf else PInf
  | NInf, Fin b => if Rltb b 0 then PInf else NInf
  | _, _ => NaN
  end.

(** Comparisons: every comparison with [NaN] is false. *)
Definition fle (x y : float64) : bool :=
  match x, y with
  | NaN, _ | _, NaN => false
  | Fin a, Fin b => Rleb a b
  | NInf, _ => true
  | _, PInf => true
  | _, _ => false
  end.

Definition flt (x y : float64) : bool :=
  match x, y with
  | NaN, _ | _, NaN => false
  | Fin a, Fin b => Rltb a b
  | PInf, _ => false
  | _, NInf => false
  | _, _ => true
  end.

Definition fgt (x y : float64) : bool := flt y x.
Definition fge (x y : float64) : bool := fle y x.

Definition IsNaN (x : float64) : bool :=
  match x with NaN => true | _ => false end.

Definition IsInf (x : float64) : bool :=
  match x with PInf | NInf => true | _ => false end.

(** The conversion [float64(n)] of an [int]. *)
Definition float64_of_int (n : Z) : float64 := Fin (IZR n).

(** ** package math *)

Module math.

Definition Pi : float64 := Fin PI.

(** [Sqrt(+Inf) = +Inf], [Sqrt(x < 0) = NaN], [Sqrt(NaN) = NaN]. *)
Definition Sqrt (x : float64) : float64 :=
    match x with
    | Fin r => if Rltb r 0 then NaN else Fin (sqrt r)
    | PInf => PInf
    | NInf => NaN
    | NaN => NaN
    end.

(** [Cos(±Inf) = NaN], [Cos(NaN) = NaN]; the same for [Sin]. *)
Definition Cos (x : float64) : float64 :=
    match x with Fin r => Fin (cos r) | _ => NaN end.

Definition Sin (x : float64) : float64 :=
    match x with Fin r => Fin (sin r) | _ => NaN end.

(** The arc tangent of [y/x] in the quadrant given by the signs of
      [x] and [y], in [[-Pi, Pi]]. *)
Definition atan2R (y x : R) : R :=
    if Rltb 0 x then atan (y / x)
    else if Rltb x 0 then
           if Rltb y 0 then atan (y / x) - PI else atan (y / x) + PI
    else if Rltb 0 y then PI / 2
    else if Rltb y 0 then - (PI / 2)
    else 0.

Definition Atan2 (y x : float64) : float64 :=
    match y, x with
    | NaN, _ | _, NaN => NaN
    | Fin a, Fin b => Fin (atan2R a b)
    | PInf, PInf => Fin (PI / 4)
    | NInf, PInf => Fin (- (PI / 4))
    | PInf, NInf => Fin (3 * PI / 4)
    | NInf, NInf => Fin (- (3 * PI / 4))
    | Fin _, PInf => Fin 0
    | Fin a, NInf => if Rltb a 0 then Fin (- PI) else Fin PI
    | PInf, Fin _ => Fin (PI / 2)
    | NInf, Fin _ => Fin (- (PI / 2))
    end.

End math.

(** ** Results of a Go call: a value, a returned [error], or a panic *)

Inductive error : Type :=
| InvalidAxis (a b : float64)        (* "Invald ellipse axis: (a: %f, b: %f)" *)
| InvalidConfidence (c : float64)    (* "Invalid confidence level: %f" *)
| ErrNaN                             (* plotter.ErrNaN *)
| ErrInfinity.                       (* plotter.ErrInfinity *)

Inductive result (A : Type) : Type :=
| Ok (v : A)
| Err (e : error)
| Panic (msg : string).

Arguments Ok {A} v.
Arguments Err {A} e.
Arguments Panic {A} msg.

Definition bind {A B : Type} (r : result A) (k : A -> result B) : result B :=
  match r with
  | Ok v => k v
  | Err e => Err e
  | Panic msg => Panic msg
  end.

Notation "x <- r ;; k" := (bind r (fun x => k))
  (at level 61, r at next level, right associativity).

Definition is_err {A : Type} (r : result A) : Prop := exists e, r = Err e.
Definition is_panic {A : Type} (r : result A) : Prop := exists msg, r = Panic msg.

Fixpoint mapM {A B : Type} (f : A -> result B) (l : list A) : result (list B) :=
  match l with
  | [] => Ok []
  | x :: l' => v <- f x ;; vs <- mapM f l' ;; Ok (v :: vs)
  end.

(** ** Go slices of float64 *)

(** [make([]float64, size)]: a negative length panics. *)
Definition make (size : Z) : result (list float64) :=
  if (size <? 0)%Z then Panic "makeslice: len out of range"
  else Ok (repeat (Fin 0) (Z.to_nat size)).

(** [s[i]]: an index past the end panics. *)
Definition index (s : list float64) (i : nat) : result float64 :=
  match nth_error s i with
  | Some v => Ok v
  | None => Panic "index out of range"
  end.

Definition len {A : Type} (s : list A) : Z := Z.of_nat (length s).

(** ** gonum/floats *)

Module floats.

(** [Span(dst, l, u)] fills [dst] with [len(dst)] equally spaced points
    from [l] to [u]: [dst[i] = l + step*float64(i)] with
    [step = (u-l)/float64(n-1)].  It panics when [len(dst) < 2].  (For
    finite [l] and [u], which is how this package calls it.) *)
Definition Span (dst : list float64) (l u : float64) : result (list float64) :=
  let n := len dst in
  if (n <? 2)%Z then Panic "floats: slice length less than 2 in span"
  else
    let step := fdiv (fsub u l) (float64_of_int (n - 1)) in
    Ok (map (fun i => fadd l (fmul step (float64_of_int (Z.of_nat i))))
            (seq 0 (length dst))).

Definition Sum (s : list float64) : float64 := fold_left fadd s (Fin 0).

End floats.

(** ** gonum/mat *)

Module mat.

(** A dense matrix: its dimensions and its entries. *)
Record Dense : Type := mkDense {
  rows : nat;
  cols : nat;
  elem : nat -> nat -> float64
}.

(** [NewDense(r, c, data)]: [data] is row-major and of length [r*c], or
    nil for a zero matrix; a zero dimension panics. *)
Definition NewDense (r c : nat) (data : option (list float64)) : result Dense :=
  if ((r =? 0) || (c =? 0))%nat then Panic "mat: zero length in matrix dimension"
  else match data with
       | None => Ok (mkDense r c (fun _ _ => Fin 0))
       | Some d =>
           if (length d =? r * c)%nat
           then Ok (mkDense r c (fun i j => nth (i * c + j) d (Fin 0)))
           else Panic "mat: dimension mismatch"
       end.

Definition At (m : Dense) (i j : nat) : result float64 :=
  if negb (i <? rows m)%nat then Panic "mat: row index out of range"
  else if negb (j <? cols m)%nat then Panic "mat: column index out of range"
  else Ok (elem m i j).

(** [m.SetCol(j, src)] *)
Definition SetCol (m : Dense) (j : nat) (src : list float64) : result Dense :=
  if negb (j <? cols m)%nat then Panic "mat: column index out of range"
  else if negb (length src =? rows m)%nat then Panic "mat: column length mismatch"
  else Ok (mkDense (rows m) (cols m)
             (fun i k => if (k =? j)%nat then nth i src (Fin 0) else elem m i k)).

(** [Col(dst, j, m)] with [dst] of length [len] *)
Definition Col (dstlen : nat) (j : nat) (m : Dense) : result (list float64) :=
  if negb (j <? cols m)%nat then Panic "mat: column index out of range"
  else if negb (dstlen =? rows m)%nat then Panic "mat: column length mismatch"
  else Ok (map (fun i => elem m i j) (seq 0 (rows m))).

Definition dot (n : nat) (f g : nat -> float64) : float64 :=
  fold_left (fun acc k => fadd acc (fmul (f k) (g k))) (seq 0 n) (Fin 0).

(** [c.Mul(a, b)]: the matrix product; the inner dimensions must agree. *)
Definition Mul (a b : Dense) : result Dense :=
  if negb (cols a =? rows b)%nat then Panic "mat: dimension mismatch"
  else Ok (mkDense (rows a) (cols b)
             (fun i j => dot (cols a) (fun k => elem a i k) (fun k => elem b k j))).

End mat.

(** ** gonum/stat *)

Module stat.

(** [Mean(x, nil)] *)
Definition Mean (x : list float64) : float64 :=
  fdiv (floats.Sum x) (float64_of_int (len x)).

(** What a successful [pc.PrincipalComponents(data, nil)] gives:
    [VarsTo(nil)], the variances in descending order, and
    [VectorsTo(nil)], the direction vectors in the columns of a matrix. *)
Record PC : Type := mkPC {
  VarsTo : list float64;
  VectorsTo : mat.Dense
}.

End stat.

(** ** gonum/stat/distuv *)

Module distuv.

(** [ChiSquared{K: 2, Src: src}.Quantile(p)]: the inverse of the
    distribution function [1 - exp(-x/2)] of the chi-squared
    distribution with two degrees of freedom; [+Inf] at [p = 1]; a [p]
    outside [[0, 1]] panics.  [Src] is only read by [Rand]. *)
Definition ChiSquared2_Quantile (p : float64) : result float64 :=
  if flt p (Fin 0) || flt (Fin 1) p then Panic "distuv: percentile out of bounds"
  else Ok (match p with
           | Fin r => if Rltb r 1 then Fin (-2 * ln (1 - r)) else PInf
           | _ => NaN
           end).

End distuv.

(** ** gonum/plot/plotter *)

Module plotter.

Record XY : Type := mkXY { X : float64; Y : float64 }.

Definition XYs : Type := list XY.

Definition CheckFloat (f : float64) : result unit :=
  if IsNaN f then Err ErrNaN
  else if IsInf f then Err ErrInfinity
  else Ok tt.

(** [CopyXYs]: a copy of the points, or the error of the first
    coordinate that is NaN or infinite. *)
Definition CopyXYs (data : XYs) : result XYs :=
  mapM (fun p => _ <- CheckFloat (X p) ;; _ <- CheckFloat (Y p) ;; Ok p) data.

Record Scatter : Type := mkScatter { Scatter_XYs : XYs }.
Record Line : Type := mkLine { Line_XYs : XYs }.

Definition NewScatter (xys : XYs) : result Scatter :=
  data <- CopyXYs xys ;; Ok (mkScatter data).

Definition NewLinePoints (xys : XYs) : result (Line * Scatter) :=
  s <- NewScatter xys ;; Ok (mkLine (Scatter_XYs s), s).

End plotter.

(** ** package ellipse: what the three revisions share *)

(** [XYFromDense(m)]: the same function in every revision. *)
Definition XYFromDense (m : option mat.Dense) : result plotter.XYs :=
  match m with
  | None => Panic "invalid memory address or nil pointer dereference"
  | Some m =>
      mapM (fun i => x <- mat.At m i 0 ;; y <- mat.At m i 1 ;; Ok (plotter.mkXY x y))
           (seq 0 (mat.rows m))
  end.

(** The rotation matrix of [LinePoints], row-major. *)
Definition rotateData (angle : float64) : list float64 :=
  [ math.Cos angle; math.Sin angle;
    fneg (math.Sin angle); math.Cos angle ].

(** [rotateMx := mat.NewDense(2, 2, rotateData)] *)
Definition rotateMx (angle : float64) : mat.Dense :=
  mat.mkDense 2 2 (fun i j => nth (i * 2 + j) (rotateData angle) (Fin 0)).

(** [if angle < 0 { angle = angle + 2*math.Pi }] *)
Definition shiftAngle (angle : float64) : float64 :=
  if flt angle (Fin 0) then fadd angle (fmul (Fin 2) math.Pi) else angle.

(** A method takes its receiver by pointer; a call is the value it
    returns together with the receiver it leaves behind. *)
Definition Method (E A : Type) : Type := E -> A * E.

Definition call {E A : Type} (body : E -> A) : Method E A := fun e => (body e, e).

(** ** Revision 1: [Ellipse{a, b, angle}] *)

Module Rev1.

Record Ellipse : Type := mkEllipse {
  a : float64;
  b : float64;
  angle : float64
}.

Definition New (a b angle : float64) : result Ellipse :=
  if fle a (Fin 0) || fle b (Fin 0) then Err (InvalidAxis a b)
  else Ok (mkEllipse a b angle).

Section WithPrincipalComponents.

(** [pc.PrincipalComponents(data, nil)]: [None] when it reports [!ok]. *)
Variable PrincipalComponents : mat.Dense -> option stat.PC.

Definition NewDataConfidence (x y : list float64) (confidence : float64)
  : result Ellipse :=
  if ((length x =? 0) || (length y =? 0))%nat
  then Panic "Empty coordinates supplied"
  else if negb (length x =? length y)%nat
  then Panic "Coordinates dimension mismatch"
  else if fle confidence (Fin 0) || fgt confidence (Fin 1)
  then Err (InvalidConfidence confidence)
  else
    data <- mat.NewDense (length x) 2 None ;;
    data <- mat.SetCol data 0 x ;;
    data <- mat.SetCol data 1 y ;;
    match PrincipalComponents data with
    | None => Panic "Could not determine Principal Components"
    | Some pc =>
        let eigVals := stat.VarsTo pc in
        let eigVecs := stat.VectorsTo pc in
        v01 <- mat.At eigVecs 0 1 ;;
        v00 <- mat.At eigVecs 0 0 ;;
        let angle := shiftAngle (math.Atan2 v01 v00) in
        qa <- distuv.ChiSquared2_Quantile confidence ;;
        l0 <- index eigVals 0 ;;
        let a := fmul (math.Sqrt qa) (math.Sqrt l0) in
        qb <- distuv.ChiSquared2_Quantile confidence ;;
        l1 <- index eigVals 1 ;;
        let b := fmul (math.Sqrt qb) (math.Sqrt l1) in
        Ok (mkEllipse a b angle)
    end.

End WithPrincipalComponents.

Definition LinePoints (e : Ellipse) (size : Z)
  : result (plotter.Line * plotter.Scatter) :=
  dst <- make size ;;
  points <- floats.Span dst (Fin 0) (fmul (Fin 2) math.Pi) ;;
  let x := map (fun point => fmul (a e) (math.Cos point)) points in
  let y := map (fun point => fmul (b e) (math.Sin point)) points in
  rotateMx <- mat.NewDense 2 2 (Some (rotateData (angle e))) ;;
  ellipsePoints <- make (2 * len points) ;;
  ellipseMx <- mat.NewDense (length points) 2 (Some ellipsePoints) ;;
  ellipseMx <- mat.SetCol ellipseMx 0 x ;;
  ellipseMx <- mat.SetCol ellipseMx 1 y ;;
  ellipseMx <- mat.Mul ellipseMx rotateMx ;;
  ellipseXY <- XYFromDense (Some ellipseMx) ;;
  plotter.NewLinePoints ellipseXY.

Definition Eccentricity (e : Ellipse) : float64 :=
  math.Sqrt (fsub (Fin 1) (fdiv (fmul (a e) (a e)) (fmul (b e) (b e)))).

(** The methods as calls on a receiver: neither body assigns to a field
    of [e]. *)
Definition LinePoints_call (size : Z) : Method Ellipse _ :=
  call (fun e => LinePoints e size).

Definition Eccentricity_call : Method Ellipse float64 := call Eccentricity.

End Rev1.

(** ** Revision 2: [Ellipse{a, b, angle, xmean, ymean}] *)

Module Rev2.

Record Ellipse : Type := mkEllipse {
  a : float64;
  b : float64;
  angle : float64;
  xmean : float64;
  ymean : float64
}.

Definition New (a b angle : float64) : result Ellipse :=
  if fle a (Fin 0) || fle b (Fin 0) then Err (InvalidAxis a b)
  else Ok (mkEllipse a b angle (Fin 0) (Fin 0)).

Section WithPrincipalComponents.

Variable PrincipalComponents : mat.Dense -> option stat.PC.

(** [data] is a [mat.Matrix]: [None] is the nil interface. *)
Definition NewWithConfidence (data : option mat.Dense) (confidence : float64)
  : result Ellipse :=
  if fle confidence (Fin 0) || fgt confidence (Fin 1)
  then Err (InvalidConfidence confidence)
  else
    match data with
    | None => Panic "invalid memory address or nil pointer dereference"
    | Some data =>
        let rows := mat.rows data in
        cx <- mat.Col rows 0 data ;;
        let xmean := stat.Mean cx in
        cy <- mat.Col rows 1 data ;;
        let ymean := stat.Mean cy in
        match PrincipalComponents data with
        | None => Panic "Could not determine Principal Components"
        | Some pc =>
            let eigVals := stat.VarsTo pc in
            let eigVecs := stat.VectorsTo pc in
            v01 <- mat.At eigVecs 0 1 ;;
            v00 <- mat.At eigVecs 0 0 ;;
            let angle := shiftAngle (math.Atan2 v01 v00) in
            qa <- distuv.ChiSquared2_Quantile confidence ;;
            l0 <- index eigVals 0 ;;
            let a := math.Sqrt (fmul qa l0) in
            qb <- distuv.ChiSquared2_Quantile confidence ;;
            l1 <- index eigVals 1 ;;
            let b := math.Sqrt (fmul qb l1) in
            Ok (mkEllipse a b angle xmean ymean)
        end
    end.

End WithPrincipalComponents.

Definition LinePoints (e : Ellipse) (size : Z)
  : result (plotter.Line * plotter.Scatter) :=
  dst <- make size ;;
  points <- floats.Span dst (Fin 0) (fmul (Fin 2) math.Pi) ;;
  let x := map (fun point => fmul (a e) (math.Cos point)) points in
  let y := map (fun point => fmul (b e) (math.Sin point)) points in
  ellipseMx <- mat.NewDense (length points) 2 None ;;
  ellipseMx <- mat.SetCol ellipseMx 0 x ;;
  ellipseMx <- mat.SetCol ellipseMx 1 y ;;
  rotateMx <- mat.NewDense 2 2 (Some (rotateData (angle e))) ;;
  ellipseMx <- mat.Mul ellipseMx rotateMx ;;
  ellipseXYs <- XYFromDense (Some ellipseMx) ;;
  let ellipseXYs :=
    map (fun p => plotter.mkXY (fadd (plotter.X p) (xmean e))
                               (fadd (plotter.Y p) (ymean e))) ellipseXYs in
  plotter.NewLinePoints ellipseXYs.

Definition Eccentricity (e : Ellipse) : float64 :=
  math.Sqrt (fsub (Fin 1) (fdiv (fmul (a e) (a e)) (fmul (b e) (b e)))).

Section WithFormat.

(** The verb [%.2f] of [fmt.Sprintf]. *)
Variable fmt2 : float64 -> string.

Definition String_ (e : Ellipse) : string := 
    ("Ellipse{a: " ++ fmt2 (a e) ++ ", b: " ++ fmt2 (b e)
     ++ ", angle: " ++ fmt2 (angle e) ++ "}")%string.

End WithFormat.

Definition LinePoints_call (size : Z) : Method Ellipse _ :=
  call (fun e => LinePoints e size).

Definition Eccentricity_call : Method Ellipse float64 := call Eccentricity.

Definition String_call (fmt2 : float64 -> string) : Method Ellipse string :=
  call (String_ fmt2).

End Rev2.

(** ** Revision 3: [Ellipse{x, y, a, b, angle}] *)

Module Rev3.

Record Ellipse : Type := mkEllipse {
  x : float64;
  y : float64;
  a : float64;
  b : float64;
  angle : float64
}.

Definition New (x y a b angle : float64) : result Ellipse :=
  if fle a (Fin 0) || fle b (Fin 0) then Err (InvalidAxis a b)
  else Ok (mkEllipse x y a b angle).

Section WithPrincipalComponents.

Variable PrincipalComponents : mat.Dense -> option stat.PC.

Definition NewWithDataConfidence (data : option mat.Dense) (confidence : float64)
  : result Ellipse :=
  if fle confidence (Fin 0) || fgt confidence (Fin 1)
  then Err (InvalidConfidence confidence)
  else
    match data with
    | None => Panic "invalid memory address or nil pointer dereference"
    | Some data =>
        let rows := mat.rows data in
        cx <- mat.Col rows 0 data ;;
        let xmean := stat.Mean cx in
        cy <- mat.Col rows 1 data ;;
        let ymean := stat.Mean cy in
        match PrincipalComponents data with
        | None => Panic "Could not determine Principal Components"
        | Some pc =>
            let eigVals := stat.VarsTo pc in
            let eigVecs := stat.VectorsTo pc in
            v01 <- mat.At eigVecs 0 1 ;;
            v00 <- mat.At eigVecs 0 0 ;;
            let angle := shiftAngle (math.Atan2 v01 v00) in
            qa <- distuv.ChiSquared2_Quantile confidence ;;
            l0 <- index eigVals 0 ;;
            let a := math.Sqrt (fmul qa l0) in
            qb <- distuv.ChiSquared2_Quantile confidence ;;
            l1 <- index eigVals 1 ;;
            let b := math.Sqrt (fmul qb l1) in
            Ok (mkEllipse xmean ymean a b angle)
        end
    end.

End WithPrincipalComponents.

Definition LinePoints (e : Ellipse) (size : Z)
  : result (plotter.Line * plotter.Scatter) :=
  dst <- make size ;;
  points <- floats.Span dst (Fin 0) (fmul (Fin 2) math.Pi) ;;
  let xs := map (fun point => fmul (a e) (math.Cos point)) points in
  let ys := map (fun point => fmul (b e) (math.Sin point)) points in
  ellipseMx <- mat.NewDense (length points) 2 None ;;
  ellipseMx <- mat.SetCol ellipseMx 0 xs ;;
  ellipseMx <- mat.SetCol ellipseMx 1 ys ;;
  rotateMx <- mat.NewDense 2 2 (Some (rotateData (angle e))) ;;
  ellipseMx <- mat.Mul ellipseMx rotateMx ;;
  ellipseXYs <- XYFromDense (Some ellipseMx) ;;
  let ellipseXYs :=
    map (fun p => plotter.mkXY (fadd (plotter.X p) (x e))
                               (fadd (plotter.Y p) (y e))) ellipseXYs in
  plotter.NewLinePoints ellipseXYs.

Definition Eccentricity (e : Ellipse) : float64 :=
  math.Sqrt (fsub (Fin 1) (fdiv (fmul (a e) (a e)) (fmul (b e) (b e)))).

Section WithFormat.

(** The verb [%.2f] of [fmt.Sprintf]. *)
Variable fmt2 : float64 -> string.

Definition String_ (e : Ellipse) : string := 
    ("Ellipse{x: " ++ fmt2 (x e) ++ ", y: " ++ fmt2 (y e)
     ++ ", a: " ++ fmt2 (a e) ++ ", b: " ++ fmt2 (b e)
     ++ ", angle: " ++ fmt2 (angle e) ++ "}")%string.

End WithFormat.

Definition LinePoints_call (size : Z) : Method Ellipse _ :=
  call (fun e => LinePoints e size).

Definition Eccentricity_call : Method Ellipse float64 := call Eccentricity.

Definition String_call (fmt2 : float64 -> string) : Method Ellipse string :=
  call (String_ fmt2).

End Rev3.

(** ** The curve [LinePoints] computes, point by point *)

(** The [i]-th of the [n] parameter values [floats.Span] spreads over
    [[0, 2*Pi]]. *)
Definition spanPoint (n : Z) (i : nat) : float64 :=
  fadd (Fin 0)
       (fmul (fdiv (fsub (fmul (Fin 2) math.Pi) (Fin 0)) (float64_of_int (n - 1)))
             (float64_of_int (Z.of_nat i))).

(** The row vector [(px, py)] times the matrix
    [[cos angle, sin angle], [-sin angle, cos angle]]. *)
Definition rotate (angle px py : float64) : plotter.XY :=
  plotter.mkXY
    (fadd (fadd (Fin 0) (fmul px (math.Cos angle))) (fmul py (fneg (math.Sin angle))))
    (fadd (fadd (Fin 0) (fmul px (math.Sin angle))) (fmul py (math.Cos angle))).

Definition translate (cx cy : float64) (p : plotter.XY) : plotter.XY :=
  plotter.mkXY (fadd (plotter.X p) cx) (fadd (plotter.Y p) cy).

(** The boundary point [(a*cos t, b*sin t)] rotated by [angle]. *)
Definition rotatedPoint (a b angle : float64) (n : Z) (i : nat) : plotter.XY :=
  rotate angle (fmul a (math.Cos (spanPoint n i))) (fmul b (math.Sin (spanPoint n i))).

Definition finiteXY (p : plotter.XY) : Prop :=
  IsNaN (plotter.X p) = false /\ IsInf (plotter.X p) = false /\
  IsNaN (plotter.Y p) = false /\ IsInf (plotter.Y p) = false.

(** ** The contract of [stat.PC] on finite data *)

Definition Rsum (l : list R) : R := fold_right Rplus 0 l.

Definition Rmean (l : list R) : R := Rsum l / INR (length l).

(** The sample covariance of two coordinate sequences. *)
Definition cov (xs ys : list R) : R :=
  Rsum (map (fun p => (fst p - Rmean xs) * (snd p - Rmean ys)) (combine xs ys))
  / (INR (length xs) - 1).

(** [vars] are the two eigenvalues of the sample covariance matrix of
    [(xs, ys)], the larger first: the roots of its characteristic
    polynomial, given by their sum (the trace) and product (the
    determinant). *)
Definition variances_of (xs ys : list R) (vars : list float64) : Prop :=
  exists l0 l1 : R,
    vars = [Fin l0; Fin l1] /\ 0 <= l1 <= l0 /\
    l0 + l1 = cov xs xs + cov ys ys /\
    l0 * l1 = cov xs xs * cov ys ys - cov xs ys * cov xs ys.

(** The columns of [m] are unit eigenvectors of the sample covariance
    matrix of [(xs, ys)] for the eigenvalues [l0] and [l1]. *)
Definition directions_of (xs ys : list R) (l0 l1 : R) (m : mat.Dense) : Prop :=
  exists v00 v10 v01 v11 : R,
    mat.rows m = 2%nat /\ mat.cols m = 2%nat /\
    mat.elem m 0 0 = Fin v00 /\ mat.elem m 1 0 = Fin v10 /\
    mat.elem m 0 1 = Fin v01 /\ mat.elem m 1 1 = Fin v11 /\
    cov xs xs * v00 + cov xs ys * v10 = l0 * v00 /\
    cov xs ys * v00 + cov ys ys * v10 = l0 * v10 /\
    cov xs xs * v01 + cov xs ys * v11 = l1 * v01 /\
    cov xs ys * v01 + cov ys ys * v11 = l1 * v11 /\
    v00 * v00 + v10 * v10 = 1 /\ v01 * v01 + v11 * v11 = 1 /\
    v00 * v01 + v10 * v11 = 0.

(** The data matrix [NewDataConfidence] builds from [x] and [y]. *)
Definition dataMx (x y : list float64) : mat.Dense :=
  mat.mkDense (length x) 2
    (fun i k => if (k =? 1)%nat then nth i y (Fin 0)
                else if (k =? 0)%nat then nth i x (Fin 0) else Fin 0).

(** A 2x2 matrix given by its rows, and a principal component analysis
    that answers [pc] whatever the data. *)
Definition dense22 (m00 m01 m10 m11 : R) : mat.Dense :=
  mat.mkDense 2 2 (fun i j => nth (i * 2 + j) [Fin m00; Fin m01; Fin m10; Fin m11] (Fin 0)).

Definition answering (pc : stat.PC) : mat.Dense -> option stat.PC := fun _ => Some pc.

(** *** Data sets and the principal components they have *)

(** Four points spread along both axes around (1, 1). *)
Definition crossX : list R := [3; -1; 1; 1].
Definition crossY : list R := [1; 1; 2; 0].
Definition crossPC : stat.PC := stat.mkPC [Fin (8/3); Fin (2/3)] (dense22 1 0 0 1).

(** The two rows (1, 2), (1, 2) of [TestNewWithConfidence]: one point twice. *)
Definition twiceX : list R := [1; 1].
Definition twiceY : list R := [2; 2].
Definition twiceMx : mat.Dense :=
  mat.mkDense 2 2 (fun i j => nth (i * 2 + j) [Fin 1; Fin 2; Fin 1; Fin 2] (Fin 0)).
Definition twicePC : stat.PC := stat.mkPC [Fin 0; Fin 0] (dense22 1 0 0 1).

(** [x = [1, 2]], [y = [1, 2]] of [TestNewDataConfidence]: two points on
    the diagonal. *)
Definition diagX : list R := [1; 2].
Definition diagY : list R := [1; 2].
Definition diagPC : stat.PC :=
  stat.mkPC [Fin 1; Fin 0]
            (dense22 (sqrt 2 / 2) (sqrt 2 / 2) (sqrt 2 / 2) (- (sqrt 2 / 2))).

(** Four points with the same spread in every direction. *)
Definition roundX : list R := [1; -1; 0; 0].
Definition roundY : list R := [0; 0; 1; -1].
Definition roundPC : stat.PC := stat.mkPC [Fin (2/3); Fin (2/3)] (dense22 1 0 0 1).

(** Four points spread most along the direction (3/5, 4/5); the
    direction vectors are the columns (3/5, 4/5) and (-4/5, 3/5). *)
Definition tiltX : list R := [6; -6; -4; 4].
Definition tiltY : list R := [8; -8; 3; -3].
Definition tiltPC : stat.PC :=
  stat.mkPC [Fin (200/3); Fin (50/3)] (dense22 (3/5) (-4/5) (4/5) (3/5)).

(** The same data and eigenvalues as [tiltPC], with the second
    direction vector pointing the other way: (4/5, -3/5). *)
Definition tiltPC' : stat.PC :=
  stat.mkPC [Fin (200/3); Fin (50/3)] (dense22 (3/5) (4/5) (4/5) (-3/5)).

(** The expression every revision's [Eccentricity] evaluates. *)
Definition eccentricityOf (a b : float64) : float64 :=
  math.Sqrt (fsub (Fin 1) (fdiv (fmul a a) (fmul b b))).

(** The ellipse of [TestLinePoints] and [TestEccentricity]. *)
Definition testEllipse1 : Rev1.Ellipse := Rev1.mkEllipse (Fin 1) (Fin 3) math.Pi.
Definition testEllipse2 : Rev2.Ellipse :=
  Rev2.mkEllipse (Fin 1) (Fin 3) math.Pi (Fin 0) (Fin 0).
Definition testEllipse3 : Rev3.Ellipse :=
  Rev3.mkEllipse (Fin 0) (Fin 0) (Fin 1) (Fin 3) math.Pi.

(** ** The example program [examples/confidence]

    Of its [main], the part that computes: the data points it plots and
    the ellipse points it shifts by the data means.  The random data,
    the plot and the file it writes are not modelled. *)

Module Example.

(** [data := mat.NewDense(size, 2, nil); data.SetCol(0, x);
    data.SetCol(1, y); dataXY := ellipse.XYFromDense(data)] *)
Definition dataXY (x y : list float64) : result plotter.XYs :=
  data <- mat.NewDense (length x) 2 None ;;
  data <- mat.SetCol data 0 x ;;
  data <- mat.SetCol data 1 y ;;
  XYFromDense (Some data).

(** [for i := range points.XYs { points.XYs[i].X = points.XYs[i].X + xMean;
    points.XYs[i].Y = points.XYs[i].Y + yMean }] *)
Definition shiftPoints (xMean yMean : float64) (pts : plotter.XYs) : plotter.XYs :=
  map (fun p => plotter.mkXY (fadd (plotter.X p) xMean) (fadd (plotter.Y p) yMean)) pts.

(** From the means to the shifted points; a returned error is where
    [main] stops with [log.Fatalf].  The loop writes through
    [points.XYs], the slice [plotter.NewLinePoints] also gave to the
    line, so these are the points of the scatter and of the line that
    is drawn. *)
Definition ellipsePoints (PrincipalComponents : mat.Dense -> option stat.PC)
           (x y : list float64) (confidence : float64) (size : Z)
  : result plotter.XYs :=
  let xMean := stat.Mean x in
  let yMean := stat.Mean y in
  ell <- Rev1.NewDataConfidence PrincipalComponents x y confidence ;;
  lp <- Rev1.LinePoints ell size ;;
  Ok (shiftPoints xMean yMean (plotter.Scatter_XYs (snd lp))).

(** The second revision of the program, which hands the data matrix to
    [NewWithDataConfidence] and draws the line of [LinePoints] as it
    is: [ell, err := ellipse.NewWithDataConfidence(data, confidence);
    line, _, err := ell.LinePoints(size)]. *)
Definition ellipsePoints2 (PrincipalComponents : mat.Dense -> option stat.PC)
           (data : mat.Dense) (confidence : float64) (size : Z)
  : result plotter.XYs :=
  ell <- Rev3.NewWithDataConfidence PrincipalComponents (Some data) confidence ;;
  lp <- Rev3.LinePoints ell size ;;
  Ok (plotter.Line_XYs (fst lp)).

End Example.

(** ** Vocabulary of the further properties *)

(** Neither NaN nor infinite. *)
Definition IsFin (x : float64) : bool := negb (IsNaN x || IsInf x).

(** The points of a curve, as [LinePoints] returns them in its scatter. *)
Definition scatterOf (r : result (plotter.Line * plotter.Scatter)) : result plotter.XYs :=
  lp <- r ;; Ok (plotter.Scatter_XYs (snd lp)).

(** A revision 1 ellipse with a centre, as revision 2 stores it, and a
    revision 2 ellipse in the field order of revision 3. *)
Definition withCentre (e : Rev1.Ellipse) (xmean ymean : float64) : Rev2.Ellipse :=
  Rev2.mkEllipse (Rev1.a e) (Rev1.b e) (Rev1.angle e) xmean ymean.

Definition toRev3 (e : Rev2.Ellipse) : Rev3.Ellipse :=
  Rev3.mkEllipse (Rev2.xmean e) (Rev2.ymean e) (Rev2.a e) (Rev2.b e) (Rev2.angle e).

(** [p] lies on the ellipse with centre [(cx, cy)], semi-axes [a] and
    [b], and the [a]-axis turned by [theta] from the x axis: in the
    ellipse's own frame its coordinates [(u, v)] satisfy
    [(u/a)^2 + (v/b)^2 = 1]. *)
Definition onEllipse (cx cy a b theta : R) (p : plotter.XY) : Prop :=
  exists px py : R,
    p = plotter.mkXY (Fin px) (Fin py)
    /\ (((px - cx) * cos theta + (py - cy) * sin theta) / a) ^ 2
       + ((- (px - cx) * sin theta + (py - cy) * cos theta) / b) ^ 2 = 1.

(** [r] is a curve of the points [pts]: the line and the scatter hold
    the same points. *)
Definition curveOf (r : result (plotter.Line * plotter.Scatter))
           (pts : plotter.XYs) : Prop :=
  r = Ok (plotter.mkLine pts, plotter.mkScatter pts).

(** [p] lies in the box of half-width [w] and half-height [h] around
    [(cx, cy)]. *)
Definition inBox (cx cy w h : R) (p : plotter.XY) : Prop :=
  exists px py : R,
    p = plotter.mkXY (Fin px) (Fin py)
    /\ Rabs (px - cx) <= w /\ Rabs (py - cy) <= h.

(** The parameter of the [i]-th of [n] points, as a real. *)
Definition spanR (n : Z) (i : nat) : R :=
  0 + (2 * PI - 0) / IZR (n - 1) * IZR (Z.of_nat i).

Ltac Rdec :=
  unfold Rleb, Rltb in *;
  repeat match goal with
         | |- context [Rle_dec ?x ?y] => destruct (Rle_dec x y)
         | |- context [Rlt_dec ?x ?y] => destruct (Rlt_dec x y)
         | H : context [Rle_dec ?x ?y] |- _ => destruct (Rle_dec x y)
         | H : context [Rlt_dec ?x ?y] |- _ => destruct (Rlt_dec x y)
         end;
  try discriminate; try lra.

(** Evaluates the sample covariance of explicit data. *)
Ltac cov_compute :=
  unfold cov, Rmean, Rsum; cbn [combine map fold_right length fst snd INR];
  try lra; try nra.

(** Splits a hypothesis [x <- r ;; k = Ok v] into [r = Ok x] and [k x = Ok v]. *)
Ltac bind_ok H x E :=
  match type of H with
  | bind ?r _ = Ok _ =>
      destruct r as [x| |] eqn:E; cbn [bind] in H; [ | discriminate H | discriminate H ]
  end.

(** * Properties *)

Lemma Rleb_true (x y : R) : Rleb x y = true <-> x <= y.
Proof. unfold Rleb; destruct (Rle_dec x y); split; intros; try discriminate; auto; lra. Qed.

Lemma Rleb_false (x y : R) : Rleb x y = false <-> y < x.
Proof. unfold Rleb; destruct (Rle_dec x y); split; intros; try discriminate; auto; lra. Qed.

Lemma Rltb_true (x y : R) : Rltb x y = true <-> x < y.
Proof. unfold Rltb; destruct (Rlt_dec x y); split; intros; try discriminate; auto; lra. Qed.

Lemma Rltb_false (x y : R) : Rltb x y = false <-> y <= x.
Proof. unfold Rltb; destruct (Rlt_dec x y); split; intros; try discriminate; auto; lra. Qed.

Lemma mapM_ok {A B : Type} (f : A -> result B) (g : A -> B) (l : list A) :
  (forall x, In x l -> f x = Ok (g x)) -> mapM f l = Ok (map g l).
Proof.
  induction l as [|x l IH]; intros H; cbn [mapM map].
  - reflexivity.
  - rewrite (H x (or_introl eq_refl)). cbn [bind].
    rewrite IH by (intros y Hy; apply H; right; exact Hy).
    reflexivity.
Qed.

Lemma nth_map_seq {A : Type} (f : nat -> A) (n i : nat) (d : A) :
  (i < n)%nat -> nth i (map f (seq 0 n)) d = f i.
Proof.
  intros Hi.
  rewrite (nth_indep _ d (f 0%nat)) by (rewrite length_map, length_seq; exact Hi).
  rewrite map_nth, seq_nth by exact Hi. reflexivity.
Qed.

Lemma make_Span (size : Z) (l u : float64) :
  (2 <= size)%Z ->
  (dst <- make size ;; floats.Span dst l u)
  = Ok (map (fun i => fadd l (fmul (fdiv (fsub u l) (float64_of_int (size - 1)))
                                   (float64_of_int (Z.of_nat i))))
            (seq 0 (Z.to_nat size))).
Proof.
  intros Hs. unfold make.
  destruct (size <? 0)%Z eqn:Hneg; [apply Z.ltb_lt in Hneg; lia|].
  cbn [bind]. unfold floats.Span, len. rewrite repeat_length, Z2Nat.id by lia.
  destruct (size <? 2)%Z eqn:H2; [apply Z.ltb_lt in H2; lia|].
  reflexivity.
Qed.

Lemma make_Span_short (size : Z) (l u : float64) :
  (size < 2)%Z -> is_panic (dst <- make size ;; floats.Span dst l u).
Proof.
  intros Hs. unfold make, is_panic.
  destruct (size <? 0)%Z eqn:Hneg; cbn [bind]; [eexists; reflexivity|].
  apply Z.ltb_ge in Hneg.
  unfold floats.Span, len. rewrite repeat_length, Z2Nat.id by lia.
  destruct (size <? 2)%Z eqn:H2; [eexists; reflexivity|].
  apply Z.ltb_ge in H2; lia.
Qed.

(** *** Matrices *)

Lemma NewDense_rotate (angle : float64) :
  mat.NewDense 2 2 (Some (rotateData angle)) = Ok (rotateMx angle).
Proof. reflexivity. Qed.

Lemma NewDense_zero_ok (r c : nat) :
  (0 < r)%nat -> (0 < c)%nat ->
  mat.NewDense r c None = Ok (mat.mkDense r c (fun _ _ => Fin 0)).
Proof.
  intros Hr Hc. unfold mat.NewDense.
  destruct r; [lia|]. destruct c; [lia|]. reflexivity.
Qed.

Lemma NewDense_data_ok (r c : nat) (d : list float64) :
  (0 < r)%nat -> (0 < c)%nat -> length d = (r * c)%nat ->
  mat.NewDense r c (Some d)
  = Ok (mat.mkDense r c (fun i j => nth (i * c + j) d (Fin 0))).
Proof.
  intros Hr Hc Hd. unfold mat.NewDense.
  destruct r; [lia|]. destruct c; [lia|].
  cbn [Nat.eqb orb]. rewrite Hd, Nat.eqb_refl. reflexivity.
Qed.

Lemma SetCol_ok (m : mat.Dense) (j : nat) (src : list float64) :
  (j < mat.cols m)%nat -> length src = mat.rows m ->
  mat.SetCol m j src
  = Ok (mat.mkDense (mat.rows m) (mat.cols m)
          (fun i k => if (k =? j)%nat then nth i src (Fin 0) else mat.elem m i k)).
Proof.
  intros Hj Hl. unfold mat.SetCol.
  apply Nat.ltb_lt in Hj. rewrite Hj, Hl, Nat.eqb_refl. reflexivity.
Qed.

Lemma At_ok (m : mat.Dense) (i j : nat) :
  (i < mat.rows m)%nat -> (j < mat.cols m)%nat -> mat.At m i j = Ok (mat.elem m i j).
Proof.
  intros Hi Hj. unfold mat.At.
  apply Nat.ltb_lt in Hi, Hj. rewrite Hi, Hj. reflexivity.
Qed.

(** Two columns [xs], [ys] set into an [n]x2 matrix, multiplied by the
    rotation matrix and read back by [XYFromDense]. *)
Lemma rotate_columns {B : Type} (m0 : mat.Dense) (xs ys : list float64)
      (angle : float64) (k : plotter.XYs -> result B) :
  mat.cols m0 = 2%nat -> length xs = mat.rows m0 -> length ys = mat.rows m0 ->
  (m1 <- mat.SetCol m0 0 xs ;;
   m2 <- mat.SetCol m1 1 ys ;;
   m3 <- mat.Mul m2 (rotateMx angle) ;;
   xy <- XYFromDense (Some m3) ;;
   k xy)
  = k (map (fun i => rotate angle (nth i xs (Fin 0)) (nth i ys (Fin 0)))
           (seq 0 (mat.rows m0))).
Proof.
  intros Hc Hx Hy.
  rewrite SetCol_ok by (rewrite ?Hc; auto). cbn [bind].
  rewrite SetCol_ok by (cbn [mat.cols mat.rows]; rewrite ?Hc; auto). cbn [bind].
  unfold mat.Mul. cbn [mat.cols mat.rows rotateMx]. rewrite Hc.
  cbn [Nat.eqb negb bind]. unfold XYFromDense. cbn [mat.rows].
  erewrite mapM_ok; [reflexivity|].
  intros i Hi. apply in_seq in Hi.
  rewrite !At_ok by (cbn [mat.rows mat.cols]; lia).
  reflexivity.
Qed.

(** *** plotter *)

Lemma CheckFloat_finite (f : float64) :
  IsNaN f = false -> IsInf f = false -> plotter.CheckFloat f = Ok tt.
Proof. intros Hn Hi. unfold plotter.CheckFloat. rewrite Hn, Hi. reflexivity. Qed.

Lemma CheckFloat_cases (f : float64) :
  (plotter.CheckFloat f = Ok tt /\ IsNaN f = false /\ IsInf f = false)
  \/ (plotter.CheckFloat f = Err ErrNaN /\ IsNaN f = true)
  \/ (plotter.CheckFloat f = Err ErrInfinity /\ IsInf f = true).
Proof. destruct f; cbn; auto. Qed.

Lemma CopyXYs_finite (pts : plotter.XYs) :
  Forall finiteXY pts -> plotter.CopyXYs pts = Ok pts.
Proof.
  unfold plotter.CopyXYs. induction 1 as [|p pts Hp _ IH]; cbn [mapM].
  - reflexivity.
  - destruct Hp as (H1 & H2 & H3 & H4).
    rewrite (CheckFloat_finite _ H1 H2), (CheckFloat_finite _ H3 H4).
    cbn [bind]. rewrite IH. reflexivity.
Qed.

Lemma CopyXYs_cases (pts : plotter.XYs) :
  (plotter.CopyXYs pts = Ok pts /\ Forall finiteXY pts)
  \/ (is_err (plotter.CopyXYs pts) /\ ~ Forall finiteXY pts).
Proof.
  unfold plotter.CopyXYs. induction pts as [|p pts IH]; cbn [mapM].
  - left. split; [reflexivity | constructor].
  - destruct (CheckFloat_cases (plotter.X p)) as [(Hx & Hxn & Hxi) | [(Hx & Hb) | (Hx & Hb)]];
      rewrite Hx; cbn [bind].
    2,3: right; split; [eexists; reflexivity|];
         intros HF; inversion HF as [|? ? (H1 & H2 & _) _]; congruence.
    destruct (CheckFloat_cases (plotter.Y p)) as [(Hy & Hyn & Hyi) | [(Hy & Hb) | (Hy & Hb)]];
      rewrite Hy; cbn [bind].
    2,3: right; split; [eexists; reflexivity|];
         intros HF; inversion HF as [|? ? (_ & _ & H3 & H4) _]; congruence.
    destruct IH as [(IH & HF) | ((e & IH) & HF)]; rewrite IH; cbn [bind].
    + left. split; [reflexivity|]. constructor; [repeat split; assumption | exact HF].
    + right. split; [eexists; reflexivity|].
      intros HF'. inversion HF'; auto.
Qed.

Lemma NewLinePoints_cases (pts : plotter.XYs) :
  (plotter.NewLinePoints pts = Ok (plotter.mkLine pts, plotter.mkScatter pts)
   /\ Forall finiteXY pts)
  \/ (is_err (plotter.NewLinePoints pts) /\ ~ Forall finiteXY pts).
Proof.
  unfold plotter.NewLinePoints, plotter.NewScatter.
  destruct (CopyXYs_cases pts) as [(H & HF) | ((e & H) & HF)]; rewrite H; cbn [bind].
  - left. split; [reflexivity | exact HF].
  - right. split; [eexists; reflexivity | exact HF].
Qed.

(** *** [LinePoints], unfolded *)

Lemma Rev1_LinePoints_eq (e : Rev1.Ellipse) (size : Z) :
  (2 <= size)%Z ->
  Rev1.LinePoints e size
  = plotter.NewLinePoints
      (map (rotatedPoint (Rev1.a e) (Rev1.b e) (Rev1.angle e) size)
           (seq 0 (Z.to_nat size))).
Proof.
  intros Hs. unfold Rev1.LinePoints.
  set (u := fmul (Fin 2) math.Pi).
  destruct (make size) as [dst| |] eqn:Hmk;
    pose proof (make_Span size (Fin 0) u Hs) as HS; rewrite Hmk in HS;
    cbn [bind] in HS |- *; try discriminate.
  rewrite HS. cbn [bind]. clear HS Hmk dst.
  rewrite NewDense_rotate. cbn [bind].
  set (pts := map _ (seq 0 (Z.to_nat size))).
  assert (Hlen : length pts = Z.to_nat size)
    by (unfold pts; rewrite length_map, length_seq; reflexivity).
  unfold make, len. rewrite Hlen.
  destruct (2 * Z.of_nat (Z.to_nat size) <? 0)%Z eqn:Hneg;
    [apply Z.ltb_lt in Hneg; lia|]. cbn [bind].
  rewrite NewDense_data_ok by (rewrite ?repeat_length; lia). cbn [bind].
  rewrite rotate_columns by (cbn [mat.cols mat.rows]; rewrite ?length_map; auto).
  cbn [mat.rows]. f_equal. apply map_ext_in. intros i Hi. apply in_seq in Hi.
  unfold rotatedPoint, spanPoint, pts.
  rewrite !(nth_indep _ (Fin 0) (fmul (Rev1.a e) (math.Cos (Fin 0))))
    by (rewrite !length_map, length_seq; lia).
  rewrite (map_nth (fun point => fmul (Rev1.a e) (math.Cos point))).
  rewrite (nth_indep _ (fmul (Rev1.a e) (math.Cos (Fin 0))) (fmul (Rev1.b e) (math.Sin (Fin 0))))
    by (rewrite !length_map, length_seq; lia).
  rewrite (map_nth (fun point => fmul (Rev1.b e) (math.Sin point))).
  rewrite nth_map_seq by lia. reflexivity.
Qed.

Lemma Rev2_LinePoints_eq (e : Rev2.Ellipse) (size : Z) :
  (2 <= size)%Z ->
  Rev2.LinePoints e size
  = plotter.NewLinePoints
      (map (fun i => translate (Rev2.xmean e) (Rev2.ymean e)
                       (rotatedPoint (Rev2.a e) (Rev2.b e) (Rev2.angle e) size i))
           (seq 0 (Z.to_nat size))).
Proof.
  intros Hs. unfold Rev2.LinePoints.
  set (u := fmul (Fin 2) math.Pi).
  destruct (make size) as [dst| |] eqn:Hmk;
    pose proof (make_Span size (Fin 0) u Hs) as HS; rewrite Hmk in HS;
    cbn [bind] in HS |- *; try discriminate.
  rewrite HS. cbn [bind]. clear HS Hmk dst.
  rewrite NewDense_rotate.
  set (pts := map _ (seq 0 (Z.to_nat size))).
  assert (Hlen : length pts = Z.to_nat size)
    by (unfold pts; rewrite length_map, length_seq; reflexivity).
  rewrite Hlen, NewDense_zero_ok by lia. cbn [bind].
  rewrite rotate_columns by (cbn [mat.cols mat.rows]; rewrite ?length_map; auto).
  cbn [mat.rows]. f_equal. rewrite map_map. apply map_ext_in.
  intros i Hi. apply in_seq in Hi.
  unfold translate, rotatedPoint, spanPoint, pts. f_equal.
  all: rewrite !(nth_indep _ (Fin 0) (fmul (Rev2.a e) (math.Cos (Fin 0))))
    by (rewrite !length_map, length_seq; lia);
  rewrite (map_nth (fun point => fmul (Rev2.a e) (math.Cos point)));
  rewrite (nth_indep _ (fmul (Rev2.a e) (math.Cos (Fin 0))) (fmul (Rev2.b e) (math.Sin (Fin 0))))
    by (rewrite !length_map, length_seq; lia);
  rewrite (map_nth (fun point => fmul (Rev2.b e) (math.Sin point)));
  rewrite nth_map_seq by lia; reflexivity.
Qed.

Lemma Rev3_LinePoints_eq (e : Rev3.Ellipse) (size : Z) :
  (2 <= size)%Z ->
  Rev3.LinePoints e size
  = plotter.NewLinePoints
      (map (fun i => translate (Rev3.x e) (Rev3.y e)
                       (rotatedPoint (Rev3.a e) (Rev3.b e) (Rev3.angle e) size i))
           (seq 0 (Z.to_nat size))).
Proof.
  intros Hs. unfold Rev3.LinePoints.
  set (u := fmul (Fin 2) math.Pi).
  destruct (make size) as [dst| |] eqn:Hmk;
    pose proof (make_Span size (Fin 0) u Hs) as HS; rewrite Hmk in HS;
    cbn [bind] in HS |- *; try discriminate.
  rewrite HS. cbn [bind]. clear HS Hmk dst.
  rewrite NewDense_rotate.
  set (pts := map _ (seq 0 (Z.to_nat size))).
  assert (Hlen : length pts = Z.to_nat size)
    by (unfold pts; rewrite length_map, length_seq; reflexivity).
  rewrite Hlen, NewDense_zero_ok by lia. cbn [bind].
  rewrite rotate_columns by (cbn [mat.cols mat.rows]; rewrite ?length_map; auto).
  cbn [mat.rows]. f_equal. rewrite map_map. apply map_ext_in.
  intros i Hi. apply in_seq in Hi.
  unfold translate, rotatedPoint, spanPoint, pts. f_equal.
  all: rewrite !(nth_indep _ (Fin 0) (fmul (Rev3.a e) (math.Cos (Fin 0))))
    by (rewrite !length_map, length_seq; lia);
  rewrite (map_nth (fun point => fmul (Rev3.a e) (math.Cos point)));
  rewrite (nth_indep _ (fmul (Rev3.a e) (math.Cos (Fin 0))) (fmul (Rev3.b e) (math.Sin (Fin 0))))
    by (rewrite !length_map, length_seq; lia);
  rewrite (map_nth (fun point => fmul (Rev3.b e) (math.Sin point)));
  rewrite nth_map_seq by lia; reflexivity.
Qed.

Lemma Rev1_LinePoints_short (e : Rev1.Ellipse) (size : Z) :
  (size < 2)%Z -> is_panic (Rev1.LinePoints e size).
Proof.
  intros Hs. unfold Rev1.LinePoints.
  destruct (make_Span_short size (Fin 0) (fmul (Fin 2) math.Pi) Hs) as [msg H].
  destruct (make size) as [dst| |]; cbn [bind] in H |- *; try discriminate;
    try (eexists; reflexivity).
  rewrite H. eexists; reflexivity.
Qed.

Lemma Rev2_LinePoints_short (e : Rev2.Ellipse) (size : Z) :
  (size < 2)%Z -> is_panic (Rev2.LinePoints e size).
Proof.
  intros Hs. unfold Rev2.LinePoints.
  destruct (make_Span_short size (Fin 0) (fmul (Fin 2) math.Pi) Hs) as [msg H].
  destruct (make size) as [dst| |]; cbn [bind] in H |- *; try discriminate;
    try (eexists; reflexivity).
  rewrite H. eexists; reflexivity.
Qed.

Lemma Rev3_LinePoints_short (e : Rev3.Ellipse) (size : Z) :
  (size < 2)%Z -> is_panic (Rev3.LinePoints e size).
Proof.
  intros Hs. unfold Rev3.LinePoints.
  destruct (make_Span_short size (Fin 0) (fmul (Fin 2) math.Pi) Hs) as [msg H].
  destruct (make size) as [dst| |]; cbn [bind] in H |- *; try discriminate;
    try (eexists; reflexivity).
  rewrite H. eexists; reflexivity.
Qed.

(** ** Explicit construction *)

(** C7: in every revision [New] returns an error (and no ellipse) exactly
    when [a <= 0] or [b <= 0]; otherwise it returns an ellipse whose [a]
    and [b] are the arguments, unchanged. *)
Theorem New_error_iff_axis_not_positive (x y a b angle : float64) :
  (is_err (Rev1.New a b angle) <-> fle a (Fin 0) = true \/ fle b (Fin 0) = true)
  /\ (is_err (Rev1.New a b angle)
      \/ exists e, Rev1.New a b angle = Ok e /\ Rev1.a e = a /\ Rev1.b e = b)
  /\ (is_err (Rev2.New a b angle) <-> fle a (Fin 0) = true \/ fle b (Fin 0) = true)
  /\ (is_err (Rev2.New a b angle)
      \/ exists e, Rev2.New a b angle = Ok e /\ Rev2.a e = a /\ Rev2.b e = b)
  /\ (is_err (Rev3.New x y a b angle) <-> fle a (Fin 0) = true \/ fle b (Fin 0) = true)
  /\ (is_err (Rev3.New x y a b angle)
      \/ exists e, Rev3.New x y a b angle = Ok e /\ Rev3.a e = a /\ Rev3.b e = b).
Proof.
  unfold Rev1.New, Rev2.New, Rev3.New, is_err.
  destruct (fle a (Fin 0)) eqn:Ha; destruct (fle b (Fin 0)) eqn:Hb; cbn [orb].
  all: repeat match goal with |- _ /\ _ => split | |- _ <-> _ => split end.
  all: first [ intros [err H]; discriminate
             | intros [H | H]; discriminate
             | intros _; solve [auto | eexists; reflexivity]
             | left; eexists; reflexivity
             | right; eexists; repeat split; reflexivity ].
Qed.

(** The cases of [TestNewEllipse]. *)
Example New_test_cases :
  is_err (Rev1.New (Fin 0) (Fin 1) (Fin 4.5))
  /\ is_err (Rev1.New (Fin 0) (Fin 0) (Fin 4.5))
  /\ is_err (Rev1.New (Fin 1) (Fin (-10)) (Fin 20.3))
  /\ Rev1.New (Fin 10) (Fin 10) (Fin (-5.6))
     = Ok (Rev1.mkEllipse (Fin 10) (Fin 10) (Fin (-5.6))).
Proof.
  unfold Rev1.New, is_err, fle. repeat split.
  1-3: eexists; Rdec; cbn [orb]; try reflexivity.
  Rdec. reflexivity.
Qed.

(** ** Construction from data: the input checks *)

Lemma Rev1_build_data {B : Type} (x y : list float64) (k : mat.Dense -> result B) :
  length x <> 0%nat -> length x = length y ->
  (data <- mat.NewDense (length x) 2 None ;;
   data <- mat.SetCol data 0 x ;;
   data <- mat.SetCol data 1 y ;;
   k data)
  = k (dataMx x y).
Proof.
  intros Hx Hxy.
  rewrite NewDense_zero_ok by lia. cbn [bind].
  rewrite SetCol_ok by (cbn [mat.cols mat.rows]; lia). cbn [bind].
  rewrite SetCol_ok by (cbn [mat.cols mat.rows]; lia). cbn [bind].
  reflexivity.
Qed.

(** C3 (as the code has it): when [x] is empty or [x] and [y] differ in
    length, [NewDataConfidence] panics, whatever the confidence; it
    returns no error value, and the outcome does not depend on the
    principal component analysis, which is never reached. *)
Theorem NewDataConfidence_bad_lengths_panic
        (PCA PCA' : mat.Dense -> option stat.PC)
        (x y : list float64) (confidence : float64) :
  length x = 0%nat \/ length x <> length y ->
  (Rev1.NewDataConfidence PCA x y confidence = Panic "Empty coordinates supplied"
   \/ Rev1.NewDataConfidence PCA x y confidence = Panic "Coordinates dimension mismatch")
  /\ ~ is_err (Rev1.NewDataConfidence PCA x y confidence)
  /\ Rev1.NewDataConfidence PCA x y confidence
     = Rev1.NewDataConfidence PCA' x y confidence.
Proof.
  intros H. unfold Rev1.NewDataConfidence, is_err.
  destruct (length x =? 0)%nat eqn:Hx; cbn [orb].
  - repeat split; auto. intros [e He]; discriminate.
  - destruct (length y =? 0)%nat eqn:Hy.
    + repeat split; auto. intros [e He]; discriminate.
    + destruct (length x =? length y)%nat eqn:Hxy; cbn [negb].
      * apply Nat.eqb_eq in Hxy. apply Nat.eqb_neq in Hx. destruct H; contradiction.
      * repeat split; auto. intros [e He]; discriminate.
Qed.

(** The first case of [TestNewDataConfidence]: [x = []], [y = [1.0]]. *)
Lemma NewDataConfidence_bad_lengths_panic_witness :
  (Rev1.NewDataConfidence (fun _ => None) [] [Fin 1] (Fin 0.05)
   = Panic "Empty coordinates supplied"
   \/ Rev1.NewDataConfidence (fun _ => None) [] [Fin 1] (Fin 0.05)
      = Panic "Coordinates dimension mismatch")
  /\ ~ is_err (Rev1.NewDataConfidence (fun _ => None) [] [Fin 1] (Fin 0.05))
  /\ Rev1.NewDataConfidence (fun _ => None) [] [Fin 1] (Fin 0.05)
     = Rev1.NewDataConfidence (fun _ => None) [] [Fin 1] (Fin 0.05).
Proof.
  apply (NewDataConfidence_bad_lengths_panic
           (fun _ => None) (fun _ => None) [] [Fin 1] (Fin 0.05)).
  left. reflexivity.
Defined.

(** C3, as stated, fails: for [x = []], [y = [1.0]] and for
    [x = [1.0, 2.0]], [y = [1.0]] the constructor panics and returns no
    error (the two panicking cases of [TestNewDataConfidence]). *)
Lemma NewDataConfidence_panics_not_error :
  Rev1.NewDataConfidence (fun _ => None) [] [Fin 1] (Fin 0.05)
  = Panic "Empty coordinates supplied"
  /\ Rev1.NewDataConfidence (fun _ => None) [Fin 1; Fin 2] [Fin 1] (Fin 0.05)
     = Panic "Coordinates dimension mismatch"
  /\ ~ is_err (Rev1.NewDataConfidence (fun _ => None) [] [Fin 1] (Fin 0.05))
  /\ ~ is_err (Rev1.NewDataConfidence (fun _ => None) [Fin 1; Fin 2] [Fin 1] (Fin 0.05)).
Proof.
  repeat split; try reflexivity; intros [e He]; discriminate He.
Qed.

(** ** The curve generator *)

Lemma spanPoint_Fin (n : Z) (i : nat) :
  (2 <= n)%Z ->
  spanPoint n i = Fin (0 + (2 * PI - 0) / IZR (n - 1) * IZR (Z.of_nat i)).
Proof.
  intros Hn. unfold spanPoint, float64_of_int, math.Pi, fsub, fneg, fmul, fadd, fdiv.
  assert (0 < IZR (n - 1)) by (apply IZR_lt; lia).
  replace (2 * PI + - 0) with (2 * PI - 0) by lra.
  Rdec. reflexivity.
Qed.

Lemma rotatedPoint_finite (ra rb rt : R) (n : Z) (i : nat) :
  (2 <= n)%Z -> finiteXY (rotatedPoint (Fin ra) (Fin rb) (Fin rt) n i).
Proof.
  intros Hn. unfold rotatedPoint. rewrite spanPoint_Fin by exact Hn.
  repeat split.
Qed.

Lemma translate_finite (cx cy : R) (p : plotter.XY) :
  finiteXY p -> finiteXY (translate (Fin cx) (Fin cy) p).
Proof.
  destruct p as [px py]. unfold finiteXY, translate. cbn [plotter.X plotter.Y].
  intros (H1 & H2 & H3 & H4).
  destruct px, py; cbn in *; try discriminate; repeat split.
Qed.

Lemma NewLinePoints_finite (pts : plotter.XYs) :
  Forall finiteXY pts ->
  plotter.NewLinePoints pts = Ok (plotter.mkLine pts, plotter.mkScatter pts).
Proof.
  intros HF. destruct (NewLinePoints_cases pts) as [(H & _) | (_ & H)];
    [exact H | contradiction].
Qed.

Lemma Forall_map_seq {A : Type} (P : A -> Prop) (f : nat -> A) (n : nat) :
  (forall i, (i < n)%nat -> P (f i)) -> Forall P (map f (seq 0 n)).
Proof.
  intros H. apply Forall_forall. intros p Hp. apply in_map_iff in Hp.
  destruct Hp as (i & <- & Hi). apply in_seq in Hi. apply H. lia.
Qed.

(** With finite axes, angle and centre every coordinate is finite and
    [plotter.NewLinePoints] accepts the points. *)
Lemma Rev1_LinePoints_finite (ra rb rt : R) (size : Z) :
  (2 <= size)%Z ->
  Rev1.LinePoints (Rev1.mkEllipse (Fin ra) (Fin rb) (Fin rt)) size
  = Ok (plotter.mkLine (map (rotatedPoint (Fin ra) (Fin rb) (Fin rt) size)
                            (seq 0 (Z.to_nat size))),
        plotter.mkScatter (map (rotatedPoint (Fin ra) (Fin rb) (Fin rt) size)
                               (seq 0 (Z.to_nat size)))).
Proof.
  intros Hs. rewrite Rev1_LinePoints_eq by exact Hs.
  cbn [Rev1.a Rev1.b Rev1.angle]. apply NewLinePoints_finite.
  apply Forall_map_seq. intros i _. apply rotatedPoint_finite. exact Hs.
Qed.

Lemma Rev2_LinePoints_finite (ra rb rt cx cy : R) (size : Z) :
  (2 <= size)%Z ->
  Rev2.LinePoints (Rev2.mkEllipse (Fin ra) (Fin rb) (Fin rt) (Fin cx) (Fin cy)) size
  = Ok (plotter.mkLine
          (map (fun i => translate (Fin cx) (Fin cy)
                           (rotatedPoint (Fin ra) (Fin rb) (Fin rt) size i))
               (seq 0 (Z.to_nat size))),
        plotter.mkScatter
          (map (fun i => translate (Fin cx) (Fin cy)
                           (rotatedPoint (Fin ra) (Fin rb) (Fin rt) size i))
               (seq 0 (Z.to_nat size)))).
Proof.
  intros Hs. rewrite Rev2_LinePoints_eq by exact Hs.
  cbn [Rev2.a Rev2.b Rev2.angle Rev2.xmean Rev2.ymean]. apply NewLinePoints_finite.
  apply Forall_map_seq. intros i _.
  apply translate_finite, rotatedPoint_finite. exact Hs.
Qed.

Lemma Rev3_LinePoints_finite (ra rb rt cx cy : R) (size : Z) :
  (2 <= size)%Z ->
  Rev3.LinePoints (Rev3.mkEllipse (Fin cx) (Fin cy) (Fin ra) (Fin rb) (Fin rt)) size
  = Ok (plotter.mkLine
          (map (fun i => translate (Fin cx) (Fin cy)
                           (rotatedPoint (Fin ra) (Fin rb) (Fin rt) size i))
               (seq 0 (Z.to_nat size))),
        plotter.mkScatter
          (map (fun i => translate (Fin cx) (Fin cy)
                           (rotatedPoint (Fin ra) (Fin rb) (Fin rt) size i))
               (seq 0 (Z.to_nat size)))).
Proof.
  intros Hs. rewrite Rev3_LinePoints_eq by exact Hs.
  cbn [Rev3.a Rev3.b Rev3.angle Rev3.x Rev3.y]. apply NewLinePoints_finite.
  apply Forall_map_seq. intros i _.
  apply translate_finite, rotatedPoint_finite. exact Hs.
Qed.

(** C6 (as the code has it): from [(a=1, b=3, angle=Pi)] a curve of any
    size [N >= 2] is generated, with exactly [N] points, all finite; for
    every size below 2 (1, 0 and the negative ones) [LinePoints] panics
    and returns no error. *)
Theorem LinePoints_size (size : Z) :
  ((2 <= size)%Z ->
   (exists line scatter,
       Rev1.LinePoints testEllipse1 size = Ok (line, scatter)
       /\ len (plotter.Line_XYs line) = size
       /\ len (plotter.Scatter_XYs scatter) = size
       /\ Forall finiteXY (plotter.Scatter_XYs scatter))
   /\ (exists line scatter,
       Rev2.LinePoints testEllipse2 size = Ok (line, scatter)
       /\ len (plotter.Line_XYs line) = size
       /\ len (plotter.Scatter_XYs scatter) = size
       /\ Forall finiteXY (plotter.Scatter_XYs scatter))
   /\ (exists line scatter,
       Rev3.LinePoints testEllipse3 size = Ok (line, scatter)
       /\ len (plotter.Line_XYs line) = size
       /\ len (plotter.Scatter_XYs scatter) = size
       /\ Forall finiteXY (plotter.Scatter_XYs scatter)))
  /\ ((size < 2)%Z ->
      (is_panic (Rev1.LinePoints testEllipse1 size)
       /\ ~ is_err (Rev1.LinePoints testEllipse1 size))
      /\ (is_panic (Rev2.LinePoints testEllipse2 size)
          /\ ~ is_err (Rev2.LinePoints testEllipse2 size))
      /\ (is_panic (Rev3.LinePoints testEllipse3 size)
          /\ ~ is_err (Rev3.LinePoints testEllipse3 size))).
Proof.
  split.
  - intros Hs.
    assert (Hlen : forall f : nat -> plotter.XY,
               len (map f (seq 0 (Z.to_nat size))) = size)
      by (intros f; unfold len; rewrite length_map, length_seq; lia).
    repeat split.
    + unfold testEllipse1, math.Pi. rewrite Rev1_LinePoints_finite by exact Hs.
      eexists _, _. split; [reflexivity|].
      cbn [plotter.Line_XYs plotter.Scatter_XYs]. rewrite Hlen.
      repeat split. apply Forall_map_seq. intros i _.
      apply rotatedPoint_finite. exact Hs.
    + unfold testEllipse2, math.Pi. rewrite Rev2_LinePoints_finite by exact Hs.
      eexists _, _. split; [reflexivity|].
      cbn [plotter.Line_XYs plotter.Scatter_XYs]. rewrite Hlen.
      repeat split. apply Forall_map_seq. intros i _.
      apply translate_finite, rotatedPoint_finite. exact Hs.
    + unfold testEllipse3, math.Pi. rewrite Rev3_LinePoints_finite by exact Hs.
      eexists _, _. split; [reflexivity|].
      cbn [plotter.Line_XYs plotter.Scatter_XYs]. rewrite Hlen.
      repeat split. apply Forall_map_seq. intros i _.
      apply translate_finite, rotatedPoint_finite. exact Hs.
  - intros Hs. repeat split.
    + apply Rev1_LinePoints_short; exact Hs.
    + destruct (Rev1_LinePoints_short testEllipse1 size Hs) as [msg H].
      rewrite H. intros [e He]; discriminate.
    + apply Rev2_LinePoints_short; exact Hs.
    + destruct (Rev2_LinePoints_short testEllipse2 size Hs) as [msg H].
      rewrite H. intros [e He]; discriminate.
    + apply Rev3_LinePoints_short; exact Hs.
    + destruct (Rev3_LinePoints_short testEllipse3 size Hs) as [msg H].
      rewrite H. intros [e He]; discriminate.
Qed.

(** C6, as stated, fails at size 1 (said to be legal) and below (said to
    return an error): [floats.Span] panics on fewer than two points and
    [make] on a negative length. *)
Lemma LinePoints_size_below_two_panics :
  Rev1.LinePoints testEllipse1 1 = Panic "floats: slice length less than 2 in span"
  /\ Rev1.LinePoints testEllipse1 0 = Panic "floats: slice length less than 2 in span"
  /\ Rev1.LinePoints testEllipse1 (-1) = Panic "makeslice: len out of range"
  /\ Rev3.LinePoints testEllipse3 1 = Panic "floats: slice length less than 2 in span".
Proof.
  unfold Rev1.LinePoints, Rev3.LinePoints, make, floats.Span, len.
  cbn [Z.ltb Z.compare bind repeat Z.to_nat Pos.to_nat Pos.iter_op length Z.of_nat
       Pos.of_succ_nat Pos.compare Pos.compare_cont].
  repeat split.
Qed.

(** [TestLinePoints]: ten points from [(a=1, b=3, angle=Pi)]. *)
Example LinePoints_test_case :
  exists line scatter,
    Rev1.LinePoints testEllipse1 10 = Ok (line, scatter)
    /\ len (plotter.Scatter_XYs scatter) = 10%Z.
Proof.
  unfold testEllipse1, math.Pi. rewrite Rev1_LinePoints_finite by lia.
  eexists _, _. split; [reflexivity|].
  cbn [plotter.Scatter_XYs]. unfold len. rewrite length_map, length_seq. reflexivity.
Qed.


(** ** Construction from data: what is computed *)

(** A confidence that passes [confidence <= 0 || confidence > 1] is a
    real in (0, 1] or NaN. *)
Lemma confidence_guard (c : float64) :
  fle c (Fin 0) || fgt c (Fin 1) = false ->
  c = NaN \/ exists r, c = Fin r /\ 0 < r <= 1.
Proof.
  destruct c as [r| | |]; cbn; intros H; try discriminate; auto.
  right. exists r. split; [reflexivity|].
  apply orb_false_iff in H. destruct H as [H1 H2].
  apply Rleb_false in H1. apply Rltb_false in H2. lra.
Qed.

Lemma Quantile_Fin (r : R) :
  0 <= r < 1 ->
  distuv.ChiSquared2_Quantile (Fin r) = Ok (Fin (-2 * ln (1 - r))).
Proof.
  intros Hr. unfold distuv.ChiSquared2_Quantile, flt. Rdec. reflexivity.
Qed.

Lemma Quantile_one : distuv.ChiSquared2_Quantile (Fin 1) = Ok PInf.
Proof. unfold distuv.ChiSquared2_Quantile, flt. Rdec. reflexivity. Qed.

(** The quantile is positive on (0, 1). *)
Lemma Quantile_pos (r : R) : 0 < r < 1 -> 0 < -2 * ln (1 - r).
Proof.
  intros Hr. assert (ln (1 - r) < 0).
  { rewrite <- ln_1. apply ln_increasing; lra. }
  lra.
Qed.

(** The quantile inverts the distribution function [1 - exp(-x/2)]. *)
Lemma Quantile_inverts_distribution (r : R) :
  0 <= r < 1 -> 1 - exp (- (-2 * ln (1 - r)) / 2) = r.
Proof.
  intros Hr. replace (- (-2 * ln (1 - r)) / 2) with (ln (1 - r)) by lra.
  rewrite exp_ln by lra. lra.
Qed.

Lemma Rev1_NewDataConfidence_inv (PCA : mat.Dense -> option stat.PC)
      (x y : list float64) (c : float64) (e : Rev1.Ellipse) :
  Rev1.NewDataConfidence PCA x y c = Ok e ->
  length x <> 0%nat /\ length x = length y
  /\ fle c (Fin 0) || fgt c (Fin 1) = false
  /\ exists pc q l0 l1 v01 v00,
      PCA (dataMx x y) = Some pc
      /\ distuv.ChiSquared2_Quantile c = Ok q
      /\ index (stat.VarsTo pc) 0 = Ok l0
      /\ index (stat.VarsTo pc) 1 = Ok l1
      /\ mat.At (stat.VectorsTo pc) 0 1 = Ok v01
      /\ mat.At (stat.VectorsTo pc) 0 0 = Ok v00
      /\ e = Rev1.mkEllipse (fmul (math.Sqrt q) (math.Sqrt l0))
                            (fmul (math.Sqrt q) (math.Sqrt l1))
                            (shiftAngle (math.Atan2 v01 v00)).
Proof.
  unfold Rev1.NewDataConfidence. intros H.
  destruct (length x =? 0)%nat eqn:Hx; cbn [orb] in H; [discriminate|].
  destruct (length y =? 0)%nat eqn:Hy; [discriminate|].
  destruct (length x =? length y)%nat eqn:Hxy; cbn [negb] in H; [|discriminate].
  destruct (fle c (Fin 0) || fgt c (Fin 1)) eqn:Hc; [discriminate|].
  apply Nat.eqb_neq in Hx. apply Nat.eqb_eq in Hxy.
  rewrite Rev1_build_data in H by assumption.
  destruct (PCA (dataMx x y)) as [pc|] eqn:Hpc; [|discriminate].
  bind_ok H v01 E01. bind_ok H v00 E00. bind_ok H qa Eqa. bind_ok H l0 El0.
  bind_ok H l1 El1.
  injection H as <-.
  repeat split; auto. exists pc, qa, l0, l1, v01, v00. repeat split; auto.
Qed.

Lemma Rev1_NewDataConfidence_eq (PCA : mat.Dense -> option stat.PC)
      (x y : list float64) (c : float64) (pc : stat.PC) (q l0 l1 v01 v00 : float64) :
  length x <> 0%nat -> length x = length y ->
  fle c (Fin 0) || fgt c (Fin 1) = false ->
  PCA (dataMx x y) = Some pc ->
  distuv.ChiSquared2_Quantile c = Ok q ->
  index (stat.VarsTo pc) 0 = Ok l0 ->
  index (stat.VarsTo pc) 1 = Ok l1 ->
  mat.At (stat.VectorsTo pc) 0 1 = Ok v01 ->
  mat.At (stat.VectorsTo pc) 0 0 = Ok v00 ->
  Rev1.NewDataConfidence PCA x y c
  = Ok (Rev1.mkEllipse (fmul (math.Sqrt q) (math.Sqrt l0))
                       (fmul (math.Sqrt q) (math.Sqrt l1))
                       (shiftAngle (math.Atan2 v01 v00))).
Proof.
  intros Hx Hxy Hc Hpc Hq Hl0 Hl1 H01 H00. unfold Rev1.NewDataConfidence.
  apply Nat.eqb_neq in Hx. rewrite Hx. cbn [orb].
  assert (Hy : (length y =? 0)%nat = false) by (rewrite <- Hxy; exact Hx).
  assert (Hxy' : (length x =? length y)%nat = true) by (apply Nat.eqb_eq; exact Hxy).
  rewrite Hy, Hxy', Hc. cbn [negb].
  rewrite Rev1_build_data by (try apply Nat.eqb_neq; assumption).
  rewrite Hpc, H01, H00, Hq, Hl0, Hl1. reflexivity.
Qed.

Lemma Rev2_NewWithConfidence_inv (PCA : mat.Dense -> option stat.PC)
      (data : option mat.Dense) (c : float64) (e : Rev2.Ellipse) :
  Rev2.NewWithConfidence PCA data c = Ok e ->
  fle c (Fin 0) || fgt c (Fin 1) = false
  /\ exists d cx cy pc q l0 l1 v01 v00,
      data = Some d
      /\ mat.Col (mat.rows d) 0 d = Ok cx
      /\ mat.Col (mat.rows d) 1 d = Ok cy
      /\ PCA d = Some pc
      /\ distuv.ChiSquared2_Quantile c = Ok q
      /\ index (stat.VarsTo pc) 0 = Ok l0
      /\ index (stat.VarsTo pc) 1 = Ok l1
      /\ mat.At (stat.VectorsTo pc) 0 1 = Ok v01
      /\ mat.At (stat.VectorsTo pc) 0 0 = Ok v00
      /\ e = Rev2.mkEllipse (math.Sqrt (fmul q l0)) (math.Sqrt (fmul q l1))
                            (shiftAngle (math.Atan2 v01 v00))
                            (stat.Mean cx) (stat.Mean cy).
Proof.
  unfold Rev2.NewWithConfidence. intros H.
  destruct (fle c (Fin 0) || fgt c (Fin 1)) eqn:Hc; [discriminate|].
  destruct data as [d|]; [|discriminate].
  bind_ok H cx Ecx. bind_ok H cy Ecy.
  destruct (PCA d) as [pc|] eqn:Hpc; [|discriminate].
  bind_ok H v01 E01. bind_ok H v00 E00. bind_ok H qa Eqa. bind_ok H l0 El0.
  bind_ok H l1 El1.
  injection H as <-.
  split; auto. exists d, cx, cy, pc, qa, l0, l1, v01, v00. repeat split; auto.
Qed.

Lemma Rev2_NewWithConfidence_eq (PCA : mat.Dense -> option stat.PC)
      (d : mat.Dense) (c : float64) (cx cy : list float64) (pc : stat.PC)
      (q l0 l1 v01 v00 : float64) :
  fle c (Fin 0) || fgt c (Fin 1) = false ->
  mat.Col (mat.rows d) 0 d = Ok cx ->
  mat.Col (mat.rows d) 1 d = Ok cy ->
  PCA d = Some pc ->
  distuv.ChiSquared2_Quantile c = Ok q ->
  index (stat.VarsTo pc) 0 = Ok l0 ->
  index (stat.VarsTo pc) 1 = Ok l1 ->
  mat.At (stat.VectorsTo pc) 0 1 = Ok v01 ->
  mat.At (stat.VectorsTo pc) 0 0 = Ok v00 ->
  Rev2.NewWithConfidence PCA (Some d) c
  = Ok (Rev2.mkEllipse (math.Sqrt (fmul q l0)) (math.Sqrt (fmul q l1))
                       (shiftAngle (math.Atan2 v01 v00))
                       (stat.Mean cx) (stat.Mean cy)).
Proof.
  intros Hc Hcx Hcy Hpc Hq Hl0 Hl1 H01 H00. unfold Rev2.NewWithConfidence.
  rewrite Hc, Hcx. cbn [bind]. rewrite Hcy. cbn [bind].
  rewrite Hpc, H01, H00, Hq, Hl0, Hl1. reflexivity.
Qed.

Lemma Rev3_NewWithDataConfidence_inv (PCA : mat.Dense -> option stat.PC)
      (data : option mat.Dense) (c : float64) (e : Rev3.Ellipse) :
  Rev3.NewWithDataConfidence PCA data c = Ok e ->
  fle c (Fin 0) || fgt c (Fin 1) = false
  /\ exists d cx cy pc q l0 l1 v01 v00,
      data = Some d
      /\ mat.Col (mat.rows d) 0 d = Ok cx
      /\ mat.Col (mat.rows d) 1 d = Ok cy
      /\ PCA d = Some pc
      /\ distuv.ChiSquared2_Quantile c = Ok q
      /\ index (stat.VarsTo pc) 0 = Ok l0
      /\ index (stat.VarsTo pc) 1 = Ok l1
      /\ mat.At (stat.VectorsTo pc) 0 1 = Ok v01
      /\ mat.At (stat.VectorsTo pc) 0 0 = Ok v00
      /\ e = Rev3.mkEllipse (stat.Mean cx) (stat.Mean cy)
                            (math.Sqrt (fmul q l0)) (math.Sqrt (fmul q l1))
                            (shiftAngle (math.Atan2 v01 v00)).
Proof.
  unfold Rev3.NewWithDataConfidence. intros H.
  destruct (fle c (Fin 0) || fgt c (Fin 1)) eqn:Hc; [discriminate|].
  destruct data as [d|]; [|discriminate].
  bind_ok H cx Ecx. bind_ok H cy Ecy.
  destruct (PCA d) as [pc|] eqn:Hpc; [|discriminate].
  bind_ok H v01 E01. bind_ok H v00 E00. bind_ok H qa Eqa. bind_ok H l0 El0.
  bind_ok H l1 El1.
  injection H as <-.
  split; auto. exists d, cx, cy, pc, qa, l0, l1, v01, v00. repeat split; auto.
Qed.

Lemma Rev3_NewWithDataConfidence_eq (PCA : mat.Dense -> option stat.PC)
      (d : mat.Dense) (c : float64) (cx cy : list float64) (pc : stat.PC)
      (q l0 l1 v01 v00 : float64) :
  fle c (Fin 0) || fgt c (Fin 1) = false ->
  mat.Col (mat.rows d) 0 d = Ok cx ->
  mat.Col (mat.rows d) 1 d = Ok cy ->
  PCA d = Some pc ->
  distuv.ChiSquared2_Quantile c = Ok q ->
  index (stat.VarsTo pc) 0 = Ok l0 ->
  index (stat.VarsTo pc) 1 = Ok l1 ->
  mat.At (stat.VectorsTo pc) 0 1 = Ok v01 ->
  mat.At (stat.VectorsTo pc) 0 0 = Ok v00 ->
  Rev3.NewWithDataConfidence PCA (Some d) c
  = Ok (Rev3.mkEllipse (stat.Mean cx) (stat.Mean cy)
                       (math.Sqrt (fmul q l0)) (math.Sqrt (fmul q l1))
                       (shiftAngle (math.Atan2 v01 v00))).
Proof.
  intros Hc Hcx Hcy Hpc Hq Hl0 Hl1 H01 H00. unfold Rev3.NewWithDataConfidence.
  rewrite Hc, Hcx. cbn [bind]. rewrite Hcy. cbn [bind].
  rewrite Hpc, H01, H00, Hq, Hl0, Hl1. reflexivity.
Qed.

(** *** The data sets *)

Lemma cross_valid :
  variances_of crossX crossY (stat.VarsTo crossPC)
  /\ directions_of crossX crossY (8/3) (2/3) (stat.VectorsTo crossPC).
Proof.
  assert (Hxx : cov crossX crossX = 8/3) by (unfold crossX; cov_compute).
  assert (Hyy : cov crossY crossY = 2/3) by (unfold crossY; cov_compute).
  assert (Hxy : cov crossX crossY = 0) by (unfold crossX, crossY; cov_compute).
  split.
  - exists (8/3), (2/3). rewrite Hxx, Hyy, Hxy. repeat split; try reflexivity; lra.
  - exists 1, 0, 0, 1. rewrite Hxx, Hyy, Hxy. repeat split; try reflexivity; lra.
Qed.

Lemma twice_valid :
  variances_of twiceX twiceY (stat.VarsTo twicePC)
  /\ directions_of twiceX twiceY 0 0 (stat.VectorsTo twicePC).
Proof.
  assert (Hxx : cov twiceX twiceX = 0) by (unfold twiceX; cov_compute).
  assert (Hyy : cov twiceY twiceY = 0) by (unfold twiceY; cov_compute).
  assert (Hxy : cov twiceX twiceY = 0) by (unfold twiceX, twiceY; cov_compute).
  split.
  - exists 0, 0. rewrite Hxx, Hyy, Hxy. repeat split; try reflexivity; lra.
  - exists 1, 0, 0, 1. rewrite Hxx, Hyy, Hxy. repeat split; try reflexivity; lra.
Qed.

Lemma diag_valid :
  variances_of diagX diagY (stat.VarsTo diagPC)
  /\ directions_of diagX diagY 1 0 (stat.VectorsTo diagPC).
Proof.
  assert (Hxx : cov diagX diagX = 1/2) by (unfold diagX; cov_compute).
  assert (Hyy : cov diagY diagY = 1/2) by (unfold diagY; cov_compute).
  assert (Hxy : cov diagX diagY = 1/2) by (unfold diagX, diagY; cov_compute).
  assert (H2 : sqrt 2 * sqrt 2 = 2) by (apply sqrt_sqrt; lra).
  split.
  - exists 1, 0. rewrite Hxx, Hyy, Hxy. repeat split; try reflexivity; lra.
  - exists (sqrt 2 / 2), (sqrt 2 / 2), (sqrt 2 / 2), (- (sqrt 2 / 2)).
    rewrite Hxx, Hyy, Hxy. repeat split; try reflexivity; nra.
Qed.

Lemma round_valid :
  variances_of roundX roundY (stat.VarsTo roundPC)
  /\ directions_of roundX roundY (2/3) (2/3) (stat.VectorsTo roundPC).
Proof.
  assert (Hxx : cov roundX roundX = 2/3) by (unfold roundX; cov_compute).
  assert (Hyy : cov roundY roundY = 2/3) by (unfold roundY; cov_compute).
  assert (Hxy : cov roundX roundY = 0) by (unfold roundX, roundY; cov_compute).
  split.
  - exists (2/3), (2/3). rewrite Hxx, Hyy, Hxy. repeat split; try reflexivity; lra.
  - exists 1, 0, 0, 1. rewrite Hxx, Hyy, Hxy. repeat split; try reflexivity; lra.
Qed.

Lemma tilt_valid :
  variances_of tiltX tiltY (stat.VarsTo tiltPC)
  /\ directions_of tiltX tiltY (200/3) (50/3) (stat.VectorsTo tiltPC).
Proof.
  assert (Hxx : cov tiltX tiltX = 104/3) by (unfold tiltX; cov_compute).
  assert (Hyy : cov tiltY tiltY = 146/3) by (unfold tiltY; cov_compute).
  assert (Hxy : cov tiltX tiltY = 24) by (unfold tiltX, tiltY; cov_compute).
  split.
  - exists (200/3), (50/3). rewrite Hxx, Hyy, Hxy. repeat split; try reflexivity; lra.
  - exists (3/5), (4/5), (-4/5), (3/5). rewrite Hxx, Hyy, Hxy.
    repeat split; try reflexivity; lra.
Qed.

(** *** The points of a generated curve *)

Lemma NewLinePoints_inv (pts : plotter.XYs) (line : plotter.Line)
      (scatter : plotter.Scatter) :
  plotter.NewLinePoints pts = Ok (line, scatter) ->
  plotter.Line_XYs line = pts /\ plotter.Scatter_XYs scatter = pts
  /\ Forall finiteXY pts.
Proof.
  intros H. destruct (NewLinePoints_cases pts) as [(H' & HF) | ((e & H') & _)];
    rewrite H' in H; [|discriminate].
  injection H as <- <-. auto.
Qed.

Lemma nth_error_map_seq {A : Type} (f : nat -> A) (n i : nat) :
  (i < n)%nat -> nth_error (map f (seq 0 n)) i = Some (f i).
Proof.
  intros Hi. apply map_nth_error.
  rewrite (nth_error_nth' _ 0%nat) by (rewrite length_seq; exact Hi).
  rewrite seq_nth by exact Hi. reflexivity.
Qed.

(** C5 (as the code has it): the [i]-th point of every generated curve
    is the boundary point [(a*cos t_i, b*sin t_i)] multiplied, as a row
    vector, by [[cos angle, sin angle], [-sin angle, cos angle]]; revision
    1 returns that point as it is, revisions 2 and 3 add the centre the
    ellipse stores ([xmean], [ymean]; [x], [y]).  The parameters [t_i]
    are [i * 2*Pi/(size-1)], from 0 to 2*Pi inclusive. *)
Theorem LinePoints_points (size : Z) (i : nat) :
  (2 <= size)%Z -> (i < Z.to_nat size)%nat ->
  (forall e line scatter,
      Rev1.LinePoints e size = Ok (line, scatter) ->
      nth_error (plotter.Line_XYs line) i
      = Some (rotate (Rev1.angle e)
                     (fmul (Rev1.a e) (math.Cos (spanPoint size i)))
                     (fmul (Rev1.b e) (math.Sin (spanPoint size i))))
      /\ plotter.Scatter_XYs scatter = plotter.Line_XYs line)
  /\ (forall e line scatter,
      Rev2.LinePoints e size = Ok (line, scatter) ->
      nth_error (plotter.Line_XYs line) i
      = Some (translate (Rev2.xmean e) (Rev2.ymean e)
                (rotate (Rev2.angle e)
                        (fmul (Rev2.a e) (math.Cos (spanPoint size i)))
                        (fmul (Rev2.b e) (math.Sin (spanPoint size i)))))
      /\ plotter.Scatter_XYs scatter = plotter.Line_XYs line)
  /\ (forall e line scatter,
      Rev3.LinePoints e size = Ok (line, scatter) ->
      nth_error (plotter.Line_XYs line) i
      = Some (translate (Rev3.x e) (Rev3.y e)
                (rotate (Rev3.angle e)
                        (fmul (Rev3.a e) (math.Cos (spanPoint size i)))
                        (fmul (Rev3.b e) (math.Sin (spanPoint size i)))))
      /\ plotter.Scatter_XYs scatter = plotter.Line_XYs line)
  /\ spanPoint size i = Fin (IZR (Z.of_nat i) * (2 * PI / IZR (size - 1)))
  /\ spanPoint size 0 = Fin 0
  /\ spanPoint size (Z.to_nat (size - 1)) = Fin (2 * PI).
Proof.
  intros Hs Hi.
  assert (Hn : 0 < IZR (size - 1)) by (apply IZR_lt; lia).
  repeat match goal with |- _ /\ _ => split end.
  - intros e line scatter H.
    rewrite Rev1_LinePoints_eq in H by exact Hs.
    apply NewLinePoints_inv in H. destruct H as (Hl & Hsc & _).
    rewrite Hsc, Hl. split; [|reflexivity].
    rewrite nth_error_map_seq by exact Hi. reflexivity.
  - intros e line scatter H.
    rewrite Rev2_LinePoints_eq in H by exact Hs.
    apply NewLinePoints_inv in H. destruct H as (Hl & Hsc & _).
    rewrite Hsc, Hl. split; [|reflexivity].
    rewrite nth_error_map_seq by exact Hi. reflexivity.
  - intros e line scatter H.
    rewrite Rev3_LinePoints_eq in H by exact Hs.
    apply NewLinePoints_inv in H. destruct H as (Hl & Hsc & _).
    rewrite Hsc, Hl. split; [|reflexivity].
    rewrite nth_error_map_seq by exact Hi. reflexivity.
  - rewrite spanPoint_Fin by exact Hs. f_equal. field. lra.
  - rewrite spanPoint_Fin by exact Hs. f_equal. cbn [Z.of_nat]. field. lra.
  - rewrite spanPoint_Fin by exact Hs. f_equal.
    rewrite Z2Nat.id by lia. field. lra.
Qed.

(** The centre an ellipse stores: (0, 0) from [New] in revision 2, the
    arguments [x], [y] of [New] in revision 3, and the column means of
    the data from the two constructors that take a matrix. *)
Lemma stored_centre :
  (forall a b angle e,
      Rev2.New a b angle = Ok e -> Rev2.xmean e = Fin 0 /\ Rev2.ymean e = Fin 0)
  /\ (forall x y a b angle e,
      Rev3.New x y a b angle = Ok e -> Rev3.x e = x /\ Rev3.y e = y)
  /\ (forall PCA data c e,
      Rev2.NewWithConfidence PCA data c = Ok e ->
      exists d cx cy,
        data = Some d
        /\ mat.Col (mat.rows d) 0 d = Ok cx /\ mat.Col (mat.rows d) 1 d = Ok cy
        /\ Rev2.xmean e = stat.Mean cx /\ Rev2.ymean e = stat.Mean cy)
  /\ (forall PCA data c e,
      Rev3.NewWithDataConfidence PCA data c = Ok e ->
      exists d cx cy,
        data = Some d
        /\ mat.Col (mat.rows d) 0 d = Ok cx /\ mat.Col (mat.rows d) 1 d = Ok cy
        /\ Rev3.x e = stat.Mean cx /\ Rev3.y e = stat.Mean cy).
Proof.
  repeat match goal with |- _ /\ _ => split end.
  - intros a b angle e. unfold Rev2.New.
    destruct (fle a (Fin 0) || fle b (Fin 0)); [discriminate|].
    intros H; injection H as <-. split; reflexivity.
  - intros x y a b angle e. unfold Rev3.New.
    destruct (fle a (Fin 0) || fle b (Fin 0)); [discriminate|].
    intros H; injection H as <-. split; reflexivity.
  - intros PCA data c e H. apply Rev2_NewWithConfidence_inv in H.
    destruct H as (_ & d & cx & cy & pc & q & l0 & l1 & v01 & v00 & H).
    destruct H as (Hd & Hcx & Hcy & _ & _ & _ & _ & _ & _ & ->).
    exists d, cx, cy. repeat split; assumption.
  - intros PCA data c e H. apply Rev3_NewWithDataConfidence_inv in H.
    destruct H as (_ & d & cx & cy & pc & q & l0 & l1 & v01 & v00 & H).
    destruct H as (Hd & Hcx & Hcy & _ & _ & _ & _ & _ & _ & ->).
    exists d, cx, cy. repeat split; assumption.
Qed.

(** *** Square roots and the rotation angle *)

Lemma Sqrt_Fin (r : R) : 0 <= r -> math.Sqrt (Fin r) = Fin (sqrt r).
Proof. intros Hr. unfold math.Sqrt. Rdec. reflexivity. Qed.

Lemma atan2R_range (y x : R) : - PI <= math.atan2R y x <= PI.
Proof.
  pose proof PI_RGT_0 as Hpi. pose proof (atan_bound (y / x)) as Hb.
  unfold math.atan2R. Rdec.
  - assert (0 < y / x).
    { unfold Rdiv. replace (y * / x) with ((- y) * (- / x)) by lra.
      apply Rmult_lt_0_compat; [lra|].
      assert (/ x < 0) by (apply Rinv_lt_0_compat; lra). lra. }
    assert (0 < atan (y / x)) by (rewrite <- atan_0; apply atan_increasing; lra).
    lra.
  - assert (y / x <= 0).
    { unfold Rdiv. assert (/ x < 0) by (apply Rinv_lt_0_compat; lra). nra. }
    assert (atan (y / x) <= 0).
    { destruct (Req_dec (y / x) 0) as [->|Hne]; [rewrite atan_0; lra|].
      rewrite <- atan_0. left. apply atan_increasing. lra. }
    lra.
Qed.

(** The stored angle, for finite vector components, is in [0, 2*Pi). *)
Lemma shiftAngle_range (y x : R) :
  exists t, shiftAngle (math.Atan2 (Fin y) (Fin x)) = Fin t /\ 0 <= t < 2 * PI.
Proof.
  pose proof PI_RGT_0 as Hpi. pose proof (atan2R_range y x) as Hr.
  unfold shiftAngle, math.Atan2, flt, fmul, fadd, math.Pi.
  destruct (Rltb (math.atan2R y x) 0) eqn:Hneg.
  - apply Rltb_true in Hneg. eexists. split; [reflexivity|]. lra.
  - apply Rltb_false in Hneg. eexists. split; [reflexivity|]. lra.
Qed.

Lemma Mean_cross :
  stat.Mean (map Fin crossX) = Fin 1 /\ stat.Mean (map Fin crossY) = Fin 1.
Proof.
  unfold stat.Mean, floats.Sum, len, float64_of_int, crossX, crossY.
  cbn [map fold_left fadd length Z.of_nat Pos.of_succ_nat Pos.succ fdiv].
  split; Rdec; f_equal; lra.
Qed.

(** The ellipse revision 1 builds from the four points around (1, 1) at
    confidence 0.95: its axes and angle are finite. *)
Lemma Rev1_cross_ellipse :
  exists ra rb rt,
    Rev1.NewDataConfidence (answering crossPC) (map Fin crossX) (map Fin crossY)
                           (Fin 0.95)
    = Ok (Rev1.mkEllipse (Fin ra) (Fin rb) (Fin rt)).
Proof.
  destruct (shiftAngle_range 0 1) as (rt & Ht & _).
  assert (Hq : 0 < -2 * ln (1 - 0.95)) by (apply Quantile_pos; lra).
  exists (sqrt (-2 * ln (1 - 0.95)) * sqrt (8/3)),
         (sqrt (-2 * ln (1 - 0.95)) * sqrt (2/3)), rt.
  rewrite (Rev1_NewDataConfidence_eq _ _ _ _ crossPC
             (Fin (-2 * ln (1 - 0.95))) (Fin (8/3)) (Fin (2/3)) (Fin 0) (Fin 1)).
  - rewrite Ht, !Sqrt_Fin by lra. reflexivity.
  - discriminate.
  - reflexivity.
  - unfold fle, fgt, flt. Rdec; reflexivity.
  - reflexivity.
  - apply Quantile_Fin. lra.
  - reflexivity.
  - reflexivity.
  - reflexivity.
  - reflexivity.
Qed.

(** C5, as stated, fails in revision 1: the curve of an ellipse built
    from data whose mean is (1, 1) is not translated by that mean. *)
Lemma LinePoints_Rev1_not_translated :
  exists e line scatter,
    Rev1.NewDataConfidence (answering crossPC) (map Fin crossX) (map Fin crossY)
                           (Fin 0.95) = Ok e
    /\ Rev1.LinePoints e 2 = Ok (line, scatter)
    /\ stat.Mean (map Fin crossX) = Fin 1
    /\ stat.Mean (map Fin crossY) = Fin 1
    /\ nth_error (plotter.Line_XYs line) 0
       <> Some (translate (Fin 1) (Fin 1)
                  (rotate (Rev1.angle e)
                          (fmul (Rev1.a e) (math.Cos (spanPoint 2 0)))
                          (fmul (Rev1.b e) (math.Sin (spanPoint 2 0))))).
Proof.
  destruct Rev1_cross_ellipse as (ra & rb & rt & He).
  pose proof (Rev1_LinePoints_eq (Rev1.mkEllipse (Fin ra) (Fin rb) (Fin rt)) 2
                                 ltac:(lia)) as HL.
  cbn [Rev1.a Rev1.b Rev1.angle] in HL.
  rewrite NewLinePoints_finite in HL
    by (apply Forall_map_seq; intros i _; apply rotatedPoint_finite; lia).
  eexists _, _, _. split; [exact He|]. split; [exact HL|].
  destruct Mean_cross as [Hx Hy]. split; [exact Hx|]. split; [exact Hy|].
  cbn [plotter.Line_XYs Rev1.a Rev1.b Rev1.angle].
  rewrite nth_error_map_seq by (cbn; lia).
  unfold rotatedPoint. rewrite spanPoint_Fin by lia.
  unfold rotate, translate, math.Cos, math.Sin, fmul, fneg, fadd.
  cbn [plotter.X plotter.Y].
  intros H. injection H as H1 H2. lra.
Qed.

(** [LinePoints_points] at [size = 2], [i = 0]. *)
Lemma LinePoints_points_witness :
  (2 <= 2)%Z /\ (0 < Z.to_nat 2)%nat
  /\ (forall e line scatter,
      Rev1.LinePoints e 2 = Ok (line, scatter) ->
      nth_error (plotter.Line_XYs line) 0
      = Some (rotate (Rev1.angle e)
                     (fmul (Rev1.a e) (math.Cos (spanPoint 2 0)))
                     (fmul (Rev1.b e) (math.Sin (spanPoint 2 0))))
      /\ plotter.Scatter_XYs scatter = plotter.Line_XYs line)
  /\ (forall e line scatter,
      Rev2.LinePoints e 2 = Ok (line, scatter) ->
      nth_error (plotter.Line_XYs line) 0
      = Some (translate (Rev2.xmean e) (Rev2.ymean e)
                (rotate (Rev2.angle e)
                        (fmul (Rev2.a e) (math.Cos (spanPoint 2 0)))
                        (fmul (Rev2.b e) (math.Sin (spanPoint 2 0)))))
      /\ plotter.Scatter_XYs scatter = plotter.Line_XYs line)
  /\ (forall e line scatter,
      Rev3.LinePoints e 2 = Ok (line, scatter) ->
      nth_error (plotter.Line_XYs line) 0
      = Some (translate (Rev3.x e) (Rev3.y e)
                (rotate (Rev3.angle e)
                        (fmul (Rev3.a e) (math.Cos (spanPoint 2 0)))
                        (fmul (Rev3.b e) (math.Sin (spanPoint 2 0)))))
      /\ plotter.Scatter_XYs scatter = plotter.Line_XYs line)
  /\ spanPoint 2 0 = Fin (IZR (Z.of_nat 0) * (2 * PI / IZR (2 - 1)))
  /\ spanPoint 2 0 = Fin 0
  /\ spanPoint 2 (Z.to_nat (2 - 1)) = Fin (2 * PI).
Proof.
  assert (H2 : (2 <= 2)%Z) by lia.
  assert (H0 : (0 < Z.to_nat 2)%nat) by (cbn; lia).
  split; [exact H2|]. split; [exact H0|].
  exact (LinePoints_points 2 0 H2 H0).
Defined.

(** ** The semi-axes *)

(** The quantile at a confidence in (0, 1] is a positive real or [+Inf]. *)
Lemma Quantile_cases (c : R) :
  0 < c <= 1 ->
  (c < 1 /\ distuv.ChiSquared2_Quantile (Fin c) = Ok (Fin (-2 * ln (1 - c)))
   /\ 0 < -2 * ln (1 - c))
  \/ (c = 1 /\ distuv.ChiSquared2_Quantile (Fin c) = Ok PInf).
Proof.
  intros Hc. destruct (Rlt_dec c 1) as [Hlt|Hge].
  - left. repeat split; [exact Hlt | apply Quantile_Fin; lra | apply Quantile_pos; lra].
  - right. assert (c = 1) by lra. subst c. split; [reflexivity | apply Quantile_one].
Qed.

(** [sqrt(q) * sqrt(l)] (revision 1) and [sqrt(q * l)] (revisions 2 and
    3) are the same value, for a quantile [q] that is positive or [+Inf]. *)
Lemma Sqrt_fmul_Fin (q l : R) :
  0 < q ->
  fmul (math.Sqrt (Fin q)) (math.Sqrt (Fin l)) = math.Sqrt (fmul (Fin q) (Fin l)).
Proof.
  intros Hq. unfold math.Sqrt, fmul.
  destruct (Rltb q 0) eqn:H1; [apply Rltb_true in H1; lra|].
  destruct (Rltb l 0) eqn:H2.
  - apply Rltb_true in H2.
    assert (Hneg : Rltb (q * l) 0 = true) by (apply Rltb_true; nra).
    rewrite Hneg. reflexivity.
  - apply Rltb_false in H2.
    assert (Hpos : Rltb (q * l) 0 = false) by (apply Rltb_false; nra).
    rewrite Hpos, sqrt_mult by lra. reflexivity.
Qed.

Lemma Sqrt_fmul_PInf (l : R) :
  fmul (math.Sqrt PInf) (math.Sqrt (Fin l)) = math.Sqrt (fmul PInf (Fin l)).
Proof.
  unfold math.Sqrt, fmul, signed.
  destruct (Rltb l 0) eqn:H2.
  - apply Rltb_true in H2.
    assert (H0 : Rltb 0 l = false) by (apply Rltb_false; lra).
    rewrite H0. reflexivity.
  - apply Rltb_false in H2. destruct (Rltb 0 l) eqn:H0.
    + apply Rltb_true in H0.
      assert (Hs : Rltb 0 (sqrt l) = true) by (apply Rltb_true, sqrt_lt_R0; exact H0).
      rewrite Hs. reflexivity.
    + apply Rltb_false in H0. assert (l = 0) by lra. subst l.
      rewrite sqrt_0. assert (H00 : Rltb 0 0 = false) by (apply Rltb_false; lra).
      rewrite H00. reflexivity.
Qed.

(** The larger eigenvalue gives the larger axis, unless the quantile is
    [+Inf] and the smaller eigenvalue 0, where the smaller axis is NaN. *)
Lemma Sqrt_fmul_le_Fin (q l0 l1 : R) :
  0 < q -> 0 <= l1 <= l0 ->
  fge (math.Sqrt (fmul (Fin q) (Fin l0))) (math.Sqrt (fmul (Fin q) (Fin l1))) = true.
Proof.
  intros Hq Hl. cbn [fmul]. rewrite !Sqrt_Fin by nra.
  unfold fge, fle. apply Rleb_true. apply sqrt_le_1; nra.
Qed.

Lemma Sqrt_fmul_le_PInf (l0 l1 : R) :
  0 < l1 <= l0 ->
  fge (math.Sqrt (fmul PInf (Fin l0))) (math.Sqrt (fmul PInf (Fin l1))) = true.
Proof.
  intros Hl. unfold fmul, signed.
  assert (H0 : Rltb 0 l0 = true) by (apply Rltb_true; lra).
  assert (H1 : Rltb 0 l1 = true) by (apply Rltb_true; lra).
  rewrite H0, H1. reflexivity.
Qed.

Lemma Sqrt_fmul_PInf_zero : math.Sqrt (fmul PInf (Fin 0)) = NaN.
Proof.
  unfold fmul, signed.
  assert (H00 : Rltb 0 0 = false) by (apply Rltb_false; lra).
  rewrite H00. reflexivity.
Qed.


Lemma axes_spec (c l0 l1 : R) (q : float64) :
  0 < c <= 1 -> 0 <= l1 <= l0 ->
  distuv.ChiSquared2_Quantile (Fin c) = Ok q ->
  fmul (math.Sqrt q) (math.Sqrt (Fin l0)) = math.Sqrt (fmul q (Fin l0))
  /\ fmul (math.Sqrt q) (math.Sqrt (Fin l1)) = math.Sqrt (fmul q (Fin l1))
  /\ (c < 1 \/ 0 < l1 ->
      fge (math.Sqrt (fmul q (Fin l0))) (math.Sqrt (fmul q (Fin l1))) = true).
Proof.
  intros Hc Hl Hq.
  destruct (Quantile_cases c Hc) as [(Hlt & Hq' & Hpos) | (-> & Hq')];
    rewrite Hq' in Hq; injection Hq as <-.
  - repeat split; try (apply Sqrt_fmul_Fin; exact Hpos).
    intros _. apply Sqrt_fmul_le_Fin; assumption.
  - repeat split; try apply Sqrt_fmul_PInf.
    intros [H|H]; [lra|]. apply Sqrt_fmul_le_PInf. lra.
Qed.




(** ** Confidence monotonicity *)

(** A larger confidence gives a strictly larger [sqrt(q*l)], for [l > 0]. *)
Lemma axis_increasing (c1 c2 l : R) (q1 q2 : float64) :
  0 < c1 -> c1 < c2 -> c2 <= 1 -> 0 < l ->
  distuv.ChiSquared2_Quantile (Fin c1) = Ok q1 ->
  distuv.ChiSquared2_Quantile (Fin c2) = Ok q2 ->
  flt (math.Sqrt (fmul q1 (Fin l))) (math.Sqrt (fmul q2 (Fin l))) = true.
Proof.
  intros H1 H12 H2 Hl Hq1 Hq2.
  rewrite Quantile_Fin in Hq1 by lra. injection Hq1 as <-.
  pose proof (Quantile_pos c1 ltac:(lra)) as Hp1.
  cbn [fmul]. rewrite Sqrt_Fin by nra.
  destruct (Quantile_cases c2 ltac:(lra)) as [(Hlt & Hq & Hp2) | (-> & Hq)];
    rewrite Hq in Hq2; injection Hq2 as <-.
  - cbn [fmul]. rewrite Sqrt_Fin by nra. unfold flt. apply Rltb_true.
    assert (ln (1 - c2) < ln (1 - c1)) by (apply ln_increasing; lra).
    apply sqrt_lt_1; nra.
  - unfold fmul, signed.
    assert (H0 : Rltb 0 l = true) by (apply Rltb_true; exact Hl).
    rewrite H0. reflexivity.
Qed.



(** The claim's own example: the four points around (1, 1) at the
    confidences 0.50 and 0.95. *)
Example axes_increase_example :
  exists e1 e2,
    Rev1.NewDataConfidence (answering crossPC) (map Fin crossX) (map Fin crossY)
                           (Fin 0.50) = Ok e1
    /\ Rev1.NewDataConfidence (answering crossPC) (map Fin crossX) (map Fin crossY)
                              (Fin 0.95) = Ok e2
    /\ flt (Rev1.a e1) (Rev1.a e2) = true /\ flt (Rev1.b e1) (Rev1.b e2) = true.
Proof.
  assert (Hg : forall c, 0 < c < 1 -> fle (Fin c) (Fin 0) || fgt (Fin c) (Fin 1) = false)
    by (intros c Hc; unfold fle, fgt, flt; Rdec; reflexivity).
  eexists _, _. split; [|split].
  - apply (Rev1_NewDataConfidence_eq _ _ _ _ crossPC
             (Fin (-2 * ln (1 - 0.50))) (Fin (8/3)) (Fin (2/3)) (Fin 0) (Fin 1));
      try reflexivity; try (apply Hg; lra); try (apply Quantile_Fin; lra). discriminate.
  - apply (Rev1_NewDataConfidence_eq _ _ _ _ crossPC
             (Fin (-2 * ln (1 - 0.95))) (Fin (8/3)) (Fin (2/3)) (Fin 0) (Fin 1));
      try reflexivity; try (apply Hg; lra); try (apply Quantile_Fin; lra). discriminate.
  - cbn [Rev1.a Rev1.b].
    rewrite !Sqrt_fmul_Fin by (apply Quantile_pos; lra).
    split; apply (axis_increasing 0.50 0.95); try lra; apply Quantile_Fin; lra.
Qed.

(** ** The invariant on the axes *)

Lemma Sqrt_not_negative (x : float64) : flt (math.Sqrt x) (Fin 0) = false.
Proof.
  destruct x as [r| | |]; cbn; try reflexivity.
  destruct (Rltb r 0) eqn:Hr; cbn; [reflexivity|].
  apply Rltb_false. apply sqrt_pos.
Qed.

Lemma fmul_Sqrt_not_negative (x y : float64) :
  flt (fmul (math.Sqrt x) (math.Sqrt y)) (Fin 0) = false.
Proof.
  pose proof (Sqrt_not_negative x) as Hx. pose proof (Sqrt_not_negative y) as Hy.
  destruct (math.Sqrt x) as [r| | |], (math.Sqrt y) as [s| | |];
    cbn in *; try reflexivity; try discriminate.
  - apply Rltb_false in Hx, Hy. apply Rltb_false. nra.
  - unfold signed. destruct (Rltb 0 r) eqn:H0; [reflexivity|].
    rewrite Hx. reflexivity.
  - unfold signed. destruct (Rltb 0 s) eqn:H0; [reflexivity|].
    rewrite Hy. reflexivity.
Qed.

(** Whatever New accepts is not [<= 0]; when it is not NaN it is [> 0]. *)
Lemma not_le_zero_positive (x : float64) :
  fle x (Fin 0) = false -> IsNaN x = false -> fgt x (Fin 0) = true.
Proof.
  destruct x as [r| | |]; cbn; intros H Hn; try discriminate; try reflexivity.
  apply Rleb_false in H. apply Rltb_true. exact H.
Qed.

Lemma New_guard_inv (a b : float64) :
  fle a (Fin 0) || fle b (Fin 0) = false ->
  fle a (Fin 0) = false /\ fle b (Fin 0) = false
  /\ (IsNaN a = false -> fgt a (Fin 0) = true)
  /\ (IsNaN b = false -> fgt b (Fin 0) = true).
Proof.
  intros H. apply orb_false_iff in H. destruct H as [Ha Hb].
  repeat split; auto; apply not_le_zero_positive; assumption.
Qed.

(** Past its confidence check [NewDataConfidence] returns no error:
    every later failure is a panic. *)
Lemma bind_no_error {A B : Type} (r : result A) (k : A -> result B) :
  ~ is_err r -> (forall v, ~ is_err (k v)) -> ~ is_err (bind r k).
Proof.
  intros Hr Hk. destruct r as [v|e|msg]; cbn [bind].
  - apply Hk.
  - exfalso. apply Hr. eexists; reflexivity.
  - intros [e He]; discriminate.
Qed.

Lemma Rev1_NewDataConfidence_no_error (PCA : mat.Dense -> option stat.PC)
      (x y : list float64) (c : float64) :
  fle c (Fin 0) || fgt c (Fin 1) = false ->
  ~ is_err (Rev1.NewDataConfidence PCA x y c).
Proof.
  intros Hg. unfold Rev1.NewDataConfidence. rewrite Hg.
  assert (HP : forall (A : Type) msg, ~ is_err (@Panic A msg))
    by (intros A msg [e He]; discriminate).
  assert (HO : forall (A : Type) (v : A), ~ is_err (Ok v))
    by (intros A v [e He]; discriminate).
  assert (HAt : forall m i j, ~ is_err (mat.At m i j)).
  { intros m i j. unfold mat.At.
    destruct (negb (i <? mat.rows m)%nat); [apply HP|].
    destruct (negb (j <? mat.cols m)%nat); [apply HP | apply HO]. }
  assert (HSet : forall m j src, ~ is_err (mat.SetCol m j src)).
  { intros m j src. unfold mat.SetCol.
    destruct (negb (j <? mat.cols m)%nat); [apply HP|].
    destruct (negb (length src =? mat.rows m)%nat); [apply HP | apply HO]. }
  assert (HNew : forall r k, ~ is_err (mat.NewDense r k None)).
  { intros r k. unfold mat.NewDense.
    destruct ((r =? 0)%nat || (k =? 0)%nat); [apply HP | apply HO]. }
  assert (HQ : ~ is_err (distuv.ChiSquared2_Quantile c)).
  { unfold distuv.ChiSquared2_Quantile.
    destruct (flt c (Fin 0) || flt (Fin 1) c); [apply HP | apply HO]. }
  assert (HI : forall l i, ~ is_err (index l i)).
  { intros l i. unfold index. destruct (nth_error l i); [apply HO | apply HP]. }
  destruct ((length x =? 0)%nat || (length y =? 0)%nat); [apply HP|].
  destruct (negb (length x =? length y)%nat); [apply HP|].
  apply bind_no_error; [apply HNew|]. intros d0.
  apply bind_no_error; [apply HSet|]. intros d1.
  apply bind_no_error; [apply HSet|]. intros d2.
  destruct (PCA d2) as [pc|]; [|apply HP].
  apply bind_no_error; [apply HAt|]. intros v01.
  apply bind_no_error; [apply HAt|]. intros v00.
  apply bind_no_error; [apply HQ|]. intros qa.
  apply bind_no_error; [apply HI|]. intros l0.
  apply bind_no_error; [apply HQ|]. intros qb.
  apply bind_no_error; [apply HI|]. intros l1.
  apply HO.
Qed.

Lemma diag_variances (vars : list float64) :
  variances_of diagX diagY vars -> vars = [Fin 1; Fin 0].
Proof.
  intros (l0 & l1 & -> & Hl & Hsum & Hprod).
  assert (Hxx : cov diagX diagX = 1/2) by (unfold diagX; cov_compute).
  assert (Hyy : cov diagY diagY = 1/2) by (unfold diagY; cov_compute).
  assert (Hxy : cov diagX diagY = 1/2) by (unfold diagX, diagY; cov_compute).
  rewrite Hxx, Hyy, Hxy in *.
  assert (l1 = 0) by nra. subst l1.
  assert (l0 = 1) by lra. subst l0. reflexivity.
Qed.

(** C2 (as the code has it): an ellipse [New] returns has [a] and [b]
    not [<= 0], so positive unless NaN was passed; an ellipse built from
    data has [a] and [b] not negative; no method changes its receiver;
    and for [x = [1, 2]], [y = [1, 2]], confidence 0.05 the constructor
    returns no error and, when the principal component analysis answers
    with the eigenvalues of that data, an ellipse with [a > 0]. *)
Theorem axes_invariant :
  (forall a b angle e,
      Rev1.New a b angle = Ok e ->
      fle (Rev1.a e) (Fin 0) = false /\ fle (Rev1.b e) (Fin 0) = false
      /\ (IsNaN a = false -> fgt (Rev1.a e) (Fin 0) = true)
      /\ (IsNaN b = false -> fgt (Rev1.b e) (Fin 0) = true))
  /\ (forall a b angle e,
      Rev2.New a b angle = Ok e ->
      fle (Rev2.a e) (Fin 0) = false /\ fle (Rev2.b e) (Fin 0) = false
      /\ (IsNaN a = false -> fgt (Rev2.a e) (Fin 0) = true)
      /\ (IsNaN b = false -> fgt (Rev2.b e) (Fin 0) = true))
  /\ (forall x y a b angle e,
      Rev3.New x y a b angle = Ok e ->
      fle (Rev3.a e) (Fin 0) = false /\ fle (Rev3.b e) (Fin 0) = false
      /\ (IsNaN a = false -> fgt (Rev3.a e) (Fin 0) = true)
      /\ (IsNaN b = false -> fgt (Rev3.b e) (Fin 0) = true))
  /\ (forall PCA x y c e,
      Rev1.NewDataConfidence PCA x y c = Ok e ->
      flt (Rev1.a e) (Fin 0) = false /\ flt (Rev1.b e) (Fin 0) = false)
  /\ (forall PCA data c e,
      Rev2.NewWithConfidence PCA data c = Ok e ->
      flt (Rev2.a e) (Fin 0) = false /\ flt (Rev2.b e) (Fin 0) = false)
  /\ (forall PCA data c e,
      Rev3.NewWithDataConfidence PCA data c = Ok e ->
      flt (Rev3.a e) (Fin 0) = false /\ flt (Rev3.b e) (Fin 0) = false)
  /\ (forall e size,
      snd (Rev1.LinePoints_call size e) = e /\ snd (Rev1.Eccentricity_call e) = e)
  /\ (forall e size fmt2,
      snd (Rev2.LinePoints_call size e) = e /\ snd (Rev2.Eccentricity_call e) = e
      /\ snd (Rev2.String_call fmt2 e) = e)
  /\ (forall e size fmt2,
      snd (Rev3.LinePoints_call size e) = e /\ snd (Rev3.Eccentricity_call e) = e
      /\ snd (Rev3.String_call fmt2 e) = e)
  /\ (forall PCA,
      ~ is_err (Rev1.NewDataConfidence PCA (map Fin diagX) (map Fin diagY) (Fin 0.05)))
  /\ (forall PCA pc,
      PCA (dataMx (map Fin diagX) (map Fin diagY)) = Some pc ->
      variances_of diagX diagY (stat.VarsTo pc) ->
      mat.rows (stat.VectorsTo pc) = 2%nat -> mat.cols (stat.VectorsTo pc) = 2%nat ->
      exists e,
        Rev1.NewDataConfidence PCA (map Fin diagX) (map Fin diagY) (Fin 0.05) = Ok e
        /\ fgt (Rev1.a e) (Fin 0) = true).
Proof.
  repeat match goal with |- _ /\ _ => split end.
  - intros a b angle e. unfold Rev1.New.
    destruct (fle a (Fin 0) || fle b (Fin 0)) eqn:Hg; [discriminate|].
    intros H; injection H as <-. apply New_guard_inv; exact Hg.
  - intros a b angle e. unfold Rev2.New.
    destruct (fle a (Fin 0) || fle b (Fin 0)) eqn:Hg; [discriminate|].
    intros H; injection H as <-. apply New_guard_inv; exact Hg.
  - intros x y a b angle e. unfold Rev3.New.
    destruct (fle a (Fin 0) || fle b (Fin 0)) eqn:Hg; [discriminate|].
    intros H; injection H as <-. apply New_guard_inv; exact Hg.
  - intros PCA x y c e He. apply Rev1_NewDataConfidence_inv in He.
    destruct He as (_ & _ & _ & pc & q & l0 & l1 & v01 & v00 & He).
    destruct He as (_ & _ & _ & _ & _ & _ & ->).
    split; apply fmul_Sqrt_not_negative.
  - intros PCA data c e He. apply Rev2_NewWithConfidence_inv in He.
    destruct He as (_ & d & cx & cy & pc & q & l0 & l1 & v01 & v00 & He).
    destruct He as (_ & _ & _ & _ & _ & _ & _ & _ & _ & ->).
    split; apply Sqrt_not_negative.
  - intros PCA data c e He. apply Rev3_NewWithDataConfidence_inv in He.
    destruct He as (_ & d & cx & cy & pc & q & l0 & l1 & v01 & v00 & He).
    destruct He as (_ & _ & _ & _ & _ & _ & _ & _ & _ & ->).
    split; apply Sqrt_not_negative.
  - intros e size. split; reflexivity.
  - intros e size fmt2. repeat split.
  - intros e size fmt2. repeat split.
  - intros PCA. apply Rev1_NewDataConfidence_no_error.
    unfold fle, fgt, flt; Rdec; reflexivity.
  - intros PCA pc Hpc Hvars Hr Hc. apply diag_variances in Hvars.
    assert (Hq : 0 < -2 * ln (1 - 0.05)) by (apply Quantile_pos; lra).
    eexists. split.
    + apply (Rev1_NewDataConfidence_eq _ _ _ _ pc (Fin (-2 * ln (1 - 0.05)))
               (Fin 1) (Fin 0)
               (mat.elem (stat.VectorsTo pc) 0 1) (mat.elem (stat.VectorsTo pc) 0 0));
        try (rewrite Hvars; reflexivity); try (apply At_ok; lia);
        try (apply Quantile_Fin; lra); try exact Hpc; try reflexivity.
      * discriminate.
      * unfold fle, fgt, flt; Rdec; reflexivity.
    + cbn [Rev1.a]. rewrite !Sqrt_Fin by lra. unfold fgt, flt, fmul.
      apply Rltb_true. rewrite sqrt_1. rewrite Rmult_1_r. apply sqrt_lt_R0. exact Hq.
Qed.

(** C2, as stated, fails: for [x = [1, 2]], [y = [1, 2]] at confidence
    0.05 the smaller eigenvalue is 0 and so is [b]; for the one point
    given twice (the matrix of [TestNewWithConfidence]) both axes are 0;
    and [New] lets a NaN axis through. *)
Lemma axes_not_always_positive :
  (variances_of diagX diagY (stat.VarsTo diagPC)
   /\ exists e,
       Rev1.NewDataConfidence (answering diagPC) (map Fin diagX) (map Fin diagY)
                              (Fin 0.05) = Ok e
       /\ Rev1.b e = Fin 0 /\ fgt (Rev1.b e) (Fin 0) = false)
  /\ (variances_of twiceX twiceY (stat.VarsTo twicePC)
      /\ exists e,
          Rev3.NewWithDataConfidence (answering twicePC) (Some twiceMx) (Fin 0.05) = Ok e
          /\ Rev3.a e = Fin 0 /\ Rev3.b e = Fin 0
          /\ fgt (Rev3.a e) (Fin 0) = false /\ fgt (Rev3.b e) (Fin 0) = false)
  /\ (exists e,
         Rev1.New NaN (Fin 1) (Fin 0) = Ok e /\ fgt (Rev1.a e) (Fin 0) = false).
Proof.
  assert (Hg : fle (Fin 0.05) (Fin 0) || fgt (Fin 0.05) (Fin 1) = false)
    by (unfold fle, fgt, flt; Rdec; reflexivity).
  assert (Hq : 0 < -2 * ln (1 - 0.05)) by (apply Quantile_pos; lra).
  assert (H00 : fgt (Fin 0) (Fin 0) = false)
    by (unfold fgt, flt; apply Rltb_false; lra).
  split; [|split].
  - split; [exact (proj1 diag_valid)|]. eexists. split.
    + apply (Rev1_NewDataConfidence_eq _ _ _ _ diagPC (Fin (-2 * ln (1 - 0.05)))
               (Fin 1) (Fin 0) (Fin (sqrt 2 / 2)) (Fin (sqrt 2 / 2)));
        try reflexivity; try exact Hg; try (apply Quantile_Fin; lra). discriminate.
    + cbn [Rev1.b]. rewrite !Sqrt_Fin by lra. cbn [fmul].
      rewrite sqrt_0, Rmult_0_r. split; [reflexivity | exact H00].
  - split; [exact (proj1 twice_valid)|]. eexists. split.
    + apply (Rev3_NewWithDataConfidence_eq _ twiceMx _ [Fin 1; Fin 1] [Fin 2; Fin 2]
               twicePC (Fin (-2 * ln (1 - 0.05))) (Fin 0) (Fin 0) (Fin 0) (Fin 1));
        try reflexivity; try exact Hg; apply Quantile_Fin; lra.
    + cbn [Rev3.a Rev3.b fmul]. rewrite Rmult_0_r, Sqrt_Fin, sqrt_0 by lra.
      repeat split; exact H00.
  - eexists. split.
    + unfold Rev1.New, fle. assert (H10 : Rleb 1 0 = false) by (apply Rleb_false; lra).
      rewrite H10. reflexivity.
    + reflexivity.
Qed.

(** ** The rotation angle *)

(** The angle every revision stores is read from the first row of the
    matrix of direction vectors, [At(0, 1)] and [At(0, 0)], and lies in
    [0, 2*Pi) when those two are finite. *)
Lemma stored_angle_range (PCA : mat.Dense -> option stat.PC) :
  (forall x y c e,
      Rev1.NewDataConfidence PCA x y c = Ok e ->
      exists pc,
        PCA (dataMx x y) = Some pc
        /\ Rev1.angle e
           = shiftAngle (math.Atan2 (mat.elem (stat.VectorsTo pc) 0 1)
                                    (mat.elem (stat.VectorsTo pc) 0 0))
        /\ forall v01 v00,
            mat.elem (stat.VectorsTo pc) 0 1 = Fin v01 ->
            mat.elem (stat.VectorsTo pc) 0 0 = Fin v00 ->
            exists t, Rev1.angle e = Fin t /\ 0 <= t < 2 * PI)
  /\ (forall d c e,
      Rev3.NewWithDataConfidence PCA (Some d) c = Ok e ->
      exists pc,
        PCA d = Some pc
        /\ Rev3.angle e
           = shiftAngle (math.Atan2 (mat.elem (stat.VectorsTo pc) 0 1)
                                    (mat.elem (stat.VectorsTo pc) 0 0))
        /\ forall v01 v00,
            mat.elem (stat.VectorsTo pc) 0 1 = Fin v01 ->
            mat.elem (stat.VectorsTo pc) 0 0 = Fin v00 ->
            exists t, Rev3.angle e = Fin t /\ 0 <= t < 2 * PI).
Proof.
  assert (HAt : forall m i j v, mat.At m i j = Ok v -> v = mat.elem m i j).
  { intros m i j v. unfold mat.At.
    destruct (negb (i <? mat.rows m)%nat); [discriminate|].
    destruct (negb (j <? mat.cols m)%nat); [discriminate|].
    intros H; injection H as <-. reflexivity. }
  split.
  - intros x y c e He. apply Rev1_NewDataConfidence_inv in He.
    destruct He as (_ & _ & _ & pc & q & l0 & l1 & v01 & v00 & He).
    destruct He as (Hpc & _ & _ & _ & H01 & H00 & ->).
    apply HAt in H01, H00. subst v01 v00.
    exists pc. cbn [Rev1.angle]. repeat split; auto.
    intros v01 v00 -> ->. apply shiftAngle_range.
  - intros d c e He. apply Rev3_NewWithDataConfidence_inv in He.
    destruct He as (_ & d' & cx & cy & pc & q & l0 & l1 & v01 & v00 & He).
    destruct He as (Hd & _ & _ & Hpc & _ & _ & _ & H01 & H00 & ->).
    injection Hd as <-. apply HAt in H01, H00. subst v01 v00.
    exists pc. cbn [Rev3.angle]. repeat split; auto.
    intros v01 v00 -> ->. apply shiftAngle_range.
Qed.

Lemma atan_four_thirds : 0 < atan (4/3) < PI / 2.
Proof.
  split; [|apply atan_bound].
  rewrite <- atan_0. apply atan_increasing. lra.
Qed.

Lemma shiftAngle_tilt_row :
  shiftAngle (math.Atan2 (Fin (-4/5)) (Fin (3/5))) = Fin (- atan (4/3) + 2 * PI).
Proof.
  pose proof atan_four_thirds as Hat.
  unfold math.Atan2, math.atan2R.
  assert (H0 : Rltb 0 (3/5) = true) by (apply Rltb_true; lra).
  rewrite H0. replace (-4/5 / (3/5)) with (- (4/3)) by lra.
  rewrite atan_opp. unfold shiftAngle, flt.
  assert (Hn : Rltb (- atan (4/3)) 0 = true) by (apply Rltb_true; lra).
  rewrite Hn. reflexivity.
Qed.

Lemma shiftAngle_tilt_column :
  shiftAngle (math.Atan2 (Fin (4/5)) (Fin (3/5))) = Fin (atan (4/3)).
Proof.
  pose proof atan_four_thirds as Hat.
  unfold math.Atan2, math.atan2R.
  assert (H0 : Rltb 0 (3/5) = true) by (apply Rltb_true; lra).
  rewrite H0. replace (4/5 / (3/5)) with (4/3) by lra.
  unfold shiftAngle, flt.
  assert (Hn : Rltb (atan (4/3)) 0 = false) by (apply Rltb_false; lra).
  rewrite Hn. reflexivity.
Qed.

(** C4, at a failing input: the four points spread along (3/5, 4/5),
    with the direction vectors in the columns (3/5, 4/5) and (-4/5, 3/5)
    of the matrix.  The vector of the largest eigenvalue is the first
    column and its angle is [atan(4/3)]; the constructors read the first
    row, (3/5, -4/5), and store [2*Pi - atan(4/3)], the mirror image. *)
Theorem angle_read_from_first_row :
  variances_of tiltX tiltY (stat.VarsTo tiltPC)
  /\ directions_of tiltX tiltY (200/3) (50/3) (stat.VectorsTo tiltPC)
  /\ mat.elem (stat.VectorsTo tiltPC) 0 0 = Fin (3/5)
  /\ mat.elem (stat.VectorsTo tiltPC) 1 0 = Fin (4/5)
  /\ shiftAngle (math.Atan2 (Fin (4/5)) (Fin (3/5))) = Fin (atan (4/3))
  /\ (exists e,
         Rev1.NewDataConfidence (answering tiltPC) (map Fin tiltX) (map Fin tiltY)
                                (Fin 0.95) = Ok e
         /\ Rev1.angle e = Fin (- atan (4/3) + 2 * PI)
         /\ Rev1.angle e <> Fin (atan (4/3)))
  /\ (exists e,
         Rev3.NewWithDataConfidence (answering tiltPC)
           (Some (dataMx (map Fin tiltX) (map Fin tiltY))) (Fin 0.95) = Ok e
         /\ Rev3.angle e = Fin (- atan (4/3) + 2 * PI)
         /\ Rev3.angle e <> Fin (atan (4/3))).
Proof.
  pose proof atan_four_thirds as Hat. pose proof PI_RGT_0 as Hpi.
  assert (Hg : fle (Fin 0.95) (Fin 0) || fgt (Fin 0.95) (Fin 1) = false)
    by (unfold fle, fgt, flt; Rdec; reflexivity).
  assert (Hne : Fin (- atan (4/3) + 2 * PI) <> Fin (atan (4/3)))
    by (intros H; injection H as H; lra).
  split; [exact (proj1 tilt_valid)|]. split; [exact (proj2 tilt_valid)|].
  split; [reflexivity|]. split; [reflexivity|].
  split; [exact shiftAngle_tilt_column|]. split.
  - eexists. split.
    + apply (Rev1_NewDataConfidence_eq _ _ _ _ tiltPC (Fin (-2 * ln (1 - 0.95)))
               (Fin (200/3)) (Fin (50/3)) (Fin (-4/5)) (Fin (3/5)));
        try reflexivity; try exact Hg; try (apply Quantile_Fin; lra). discriminate.
    + cbn [Rev1.angle]. rewrite shiftAngle_tilt_row. split; [reflexivity | exact Hne].
  - eexists. split.
    + apply (Rev3_NewWithDataConfidence_eq _ _ _ (map Fin tiltX) (map Fin tiltY)
               tiltPC (Fin (-2 * ln (1 - 0.95)))
               (Fin (200/3)) (Fin (50/3)) (Fin (-4/5)) (Fin (3/5)));
        try reflexivity; try exact Hg; apply Quantile_Fin; lra.
    + cbn [Rev3.angle]. rewrite shiftAngle_tilt_row. split; [reflexivity | exact Hne].
Qed.

(** The stored angle follows the sign the analysis gives the second
    direction vector: with (4/5, -3/5) in the second column, for the
    same data, the constructors store [atan(4/3)]. *)
Lemma angle_depends_on_second_vector :
  directions_of tiltX tiltY (200/3) (50/3) (stat.VectorsTo tiltPC')
  /\ exists e e',
      Rev1.NewDataConfidence (answering tiltPC) (map Fin tiltX) (map Fin tiltY)
                             (Fin 0.95) = Ok e
      /\ Rev1.NewDataConfidence (answering tiltPC') (map Fin tiltX) (map Fin tiltY)
                                (Fin 0.95) = Ok e'
      /\ Rev1.angle e' = Fin (atan (4/3))
      /\ Rev1.angle e <> Rev1.angle e'.
Proof.
  pose proof atan_four_thirds as Hat. pose proof PI_RGT_0 as Hpi.
  assert (Hg : fle (Fin 0.95) (Fin 0) || fgt (Fin 0.95) (Fin 1) = false)
    by (unfold fle, fgt, flt; Rdec; reflexivity).
  split.
  - assert (Hxx : cov tiltX tiltX = 104/3) by (unfold tiltX; cov_compute).
    assert (Hyy : cov tiltY tiltY = 146/3) by (unfold tiltY; cov_compute).
    assert (Hxy : cov tiltX tiltY = 24) by (unfold tiltX, tiltY; cov_compute).
    exists (3/5), (4/5), (4/5), (-3/5). rewrite Hxx, Hyy, Hxy.
    repeat split; try reflexivity; lra.
  - eexists _, _. split; [|split; [|split]].
    + apply (Rev1_NewDataConfidence_eq _ _ _ _ tiltPC (Fin (-2 * ln (1 - 0.95)))
               (Fin (200/3)) (Fin (50/3)) (Fin (-4/5)) (Fin (3/5)));
        try reflexivity; try exact Hg; try (apply Quantile_Fin; lra). discriminate.
    + apply (Rev1_NewDataConfidence_eq _ _ _ _ tiltPC' (Fin (-2 * ln (1 - 0.95)))
               (Fin (200/3)) (Fin (50/3)) (Fin (4/5)) (Fin (3/5)));
        try reflexivity; try exact Hg; try (apply Quantile_Fin; lra). discriminate.
    + cbn [Rev1.angle]. exact shiftAngle_tilt_column.
    + cbn [Rev1.angle]. rewrite shiftAngle_tilt_row, shiftAngle_tilt_column.
      intros H; injection H as H; lra.
Qed.

(** For every matrix of unit, orthogonal direction vectors the first
    row is the first column or its mirror image, and so is the stored
    angle: the angle of the first vector, or that of its reflection in
    the x axis. *)
Lemma stored_angle_claimed_or_mirrored (xs ys : list R) (l0 l1 : R) (V : mat.Dense) :
  directions_of xs ys l0 l1 V ->
  exists v00 v10,
    mat.elem V 0 0 = Fin v00 /\ mat.elem V 1 0 = Fin v10
    /\ (shiftAngle (math.Atan2 (mat.elem V 0 1) (mat.elem V 0 0))
        = shiftAngle (math.Atan2 (Fin v10) (Fin v00))
        \/ shiftAngle (math.Atan2 (mat.elem V 0 1) (mat.elem V 0 0))
           = shiftAngle (math.Atan2 (Fin (- v10)) (Fin v00))).
Proof.
  intros (v00 & v10 & v01 & v11 & _ & _ & H00 & H10 & H01 & _ & H).
  destruct H as (_ & _ & _ & _ & Hn0 & Hn1 & Hort).
  exists v00, v10. rewrite H00, H01. repeat split; auto.
  assert (E1 : v00 * v01 = - (v10 * v11)) by lra.
  assert (E2 : (v00 * v01) * (v00 * v01) = (v10 * v11) * (v10 * v11))
    by (rewrite E1; ring).
  assert (E3 : v01 * v01 = v10 * v10).
  { transitivity (v01 * v01 * (v00 * v00 + v10 * v10)); [rewrite Hn0; ring|].
    transitivity (v10 * v10 * (v01 * v01 + v11 * v11)); [|rewrite Hn1; ring].
    replace (v01 * v01 * (v00 * v00 + v10 * v10))
      with ((v00 * v01) * (v00 * v01) + v01 * v01 * (v10 * v10)) by ring.
    rewrite E2. ring. }
  assert (Hsq : (v01 - v10) * (v01 + v10) = 0)
    by (replace ((v01 - v10) * (v01 + v10)) with (v01 * v01 - v10 * v10) by ring; lra).
  apply Rmult_integral in Hsq. destruct Hsq as [Hs|Hs].
  - left. replace v01 with v10 by lra. reflexivity.
  - right. replace v01 with (- v10) by lra. reflexivity.
Qed.

(** ** Eccentricity *)

Lemma eccentricityOf_NaN (a b : float64) :
  flt b (Fin 0) = false -> fgt a b = true -> eccentricityOf a b = NaN.
Proof.
  unfold eccentricityOf, fgt.
  destruct a as [ra| | |], b as [rb| | |]; cbn; intros Hb Hab; try discriminate;
    try reflexivity.
  - apply Rltb_false in Hb. apply Rltb_true in Hab.
    destruct (Rltb 0 (rb * rb)) eqn:Hpos.
    + apply Rltb_true in Hpos. cbn.
      assert (Hr : 1 < ra * ra / (rb * rb)).
      { apply Rmult_lt_reg_r with (rb * rb); [exact Hpos|].
        unfold Rdiv. rewrite Rmult_assoc, Rinv_l by lra. nra. }
      assert (Hn : Rltb (1 + - (ra * ra / (rb * rb))) 0 = true)
        by (apply Rltb_true; lra).
      rewrite Hn. reflexivity.
    + apply Rltb_false in Hpos. assert (rb = 0) by nra. subst rb.
      assert (H1 : Rltb (0 * 0) 0 = false) by (apply Rltb_false; lra).
      rewrite H1. unfold signed.
      assert (H2 : Rltb 0 (ra * ra) = true) by (apply Rltb_true; nra).
      rewrite H2. reflexivity.
  - assert (H1 : Rltb (rb * rb) 0 = false) by (apply Rltb_false; nra).
    rewrite H1. reflexivity.
Qed.

Lemma eccentricityOf_Fin (a b : float64) (r : R) :
  flt b (Fin 0) = false -> eccentricityOf a b = Fin r ->
  fle a b = true /\ 0 <= r <= 1.
Proof.
  unfold eccentricityOf.
  destruct a as [ra| | |], b as [rb| | |]; cbn; intros Hb H; try discriminate.
  - apply Rltb_false in Hb.
    destruct (Rltb 0 (rb * rb)) eqn:Hpos.
    + apply Rltb_true in Hpos. cbn in H.
      destruct (Rltb (1 + - (ra * ra / (rb * rb))) 0) eqn:Hn; [discriminate|].
      apply Rltb_false in Hn. injection H as <-.
      assert (Hq : 0 <= ra * ra / (rb * rb)).
      { unfold Rdiv. apply Rmult_le_pos; [nra|]. left. apply Rinv_0_lt_compat. lra. }
      assert (Hr : ra * ra <= rb * rb).
      { assert (Hle : ra * ra / (rb * rb) <= 1) by lra.
        apply Rmult_le_compat_r with (r := rb * rb) in Hle; [|lra].
        unfold Rdiv in Hle. rewrite Rmult_assoc, Rinv_l in Hle by lra. lra. }
      split; [apply Rleb_true; nra|].
      split; [apply sqrt_pos|].
      apply Rle_trans with (sqrt 1); [apply sqrt_le_1; lra | rewrite sqrt_1; lra].
    + apply Rltb_false in Hpos.
      assert (H1 : Rltb (rb * rb) 0 = false) by (apply Rltb_false; nra).
      rewrite H1 in H. unfold signed in H.
      destruct (Rltb 0 (ra * ra)); [discriminate|].
      destruct (Rltb (ra * ra) 0); discriminate.
  - split; [reflexivity|].
    assert (H1 : Rltb (1 + - 0) 0 = false) by (apply Rltb_false; lra).
    rewrite H1 in H. injection H as <-.
    replace (1 + - 0) with 1 by lra. rewrite sqrt_1. lra.
  - destruct (Rltb (rb * rb) 0); discriminate.
  - destruct (Rltb (rb * rb) 0); discriminate.
Qed.

Lemma eccentricityOf_equal_axes (s : R) :
  s <> 0 -> eccentricityOf (Fin s) (Fin s) = Fin 0.
Proof.
  intros Hs. unfold eccentricityOf, fmul, fdiv.
  assert (Hpos : Rltb 0 (s * s) = true) by (apply Rltb_true; nra).
  rewrite Hpos. unfold fsub, fneg, fadd.
  replace (1 + - (s * s / (s * s))) with 0 by (field; exact Hs).
  rewrite Sqrt_Fin by lra. rewrite sqrt_0. reflexivity.
Qed.

Lemma not_le_not_lt (x : float64) :
  fle x (Fin 0) = false -> flt x (Fin 0) = false.
Proof.
  destruct x as [r| | |]; cbn; intros H; try discriminate; try reflexivity.
  apply Rleb_false in H. apply Rltb_false. lra.
Qed.


(** [TestEccentricity]: [(a=1, b=3)] has eccentricity [sqrt(1 - 1/9)],
    which is not zero; with the axes exchanged it is NaN. *)
Example Eccentricity_test_case :
  Rev1.Eccentricity testEllipse1 = Fin (sqrt (1 - 1/9))
  /\ 0 < sqrt (1 - 1/9) < 1
  /\ Rev1.Eccentricity (Rev1.mkEllipse (Fin 3) (Fin 1) math.Pi) = NaN.
Proof.
  split; [|split].
  - unfold Rev1.Eccentricity, testEllipse1. cbn [Rev1.a Rev1.b fmul fdiv].
    assert (H : Rltb 0 (3 * 3) = true) by (apply Rltb_true; lra).
    rewrite H. cbn [fsub fneg fadd]. rewrite Sqrt_Fin by lra.
    f_equal. f_equal. lra.
  - split; [apply sqrt_lt_R0; lra|].
    apply Rlt_le_trans with (sqrt 1); [apply sqrt_lt_1; lra | rewrite sqrt_1; lra].
  - apply (eccentricityOf_NaN (Fin 3) (Fin 1)); cbn.
    + apply Rltb_false; lra.
    + apply Rltb_true; lra.
Qed.


(** ** The remaining cases of the package's tests *)

(** [TestNewDataConfidence]: confidence 0 and 2.0 give an error;
    [TestNewWithConfidence]: the same for a matrix. *)
Example confidence_out_of_range (PCA : mat.Dense -> option stat.PC) :
  Rev1.NewDataConfidence PCA (map Fin diagX) (map Fin diagY) (Fin 0)
  = Err (InvalidConfidence (Fin 0))
  /\ Rev1.NewDataConfidence PCA (map Fin diagX) (map Fin diagY) (Fin 2)
     = Err (InvalidConfidence (Fin 2))
  /\ Rev3.NewWithDataConfidence PCA (Some twiceMx) (Fin 0)
     = Err (InvalidConfidence (Fin 0))
  /\ Rev3.NewWithDataConfidence PCA (Some twiceMx) (Fin 2)
     = Err (InvalidConfidence (Fin 2)).
Proof.
  assert (H0 : fle (Fin 0) (Fin 0) = true) by (apply Rleb_true; lra).
  assert (H2 : fle (Fin 2) (Fin 0) || fgt (Fin 2) (Fin 1) = true).
  { apply orb_true_iff. right. apply Rltb_true. lra. }
  unfold Rev1.NewDataConfidence, Rev3.NewWithDataConfidence.
  cbn [diagX diagY map length Nat.eqb orb negb].
  rewrite H0, H2. cbn [orb]. repeat split.
Qed.

(** [TestXYFromDense]: a nil matrix and a 5x1 matrix panic, a 5x2
    matrix gives its five rows. *)
Example XYFromDense_test_cases :
  is_panic (XYFromDense None)
  /\ is_panic (m <- mat.NewDense 5 1 None ;; XYFromDense (Some m))
  /\ (m <- mat.NewDense 5 2 None ;; XYFromDense (Some m))
     = Ok (repeat (plotter.mkXY (Fin 0) (Fin 0)) 5).
Proof.
  split; [eexists; reflexivity|]. split; [eexists; reflexivity|]. reflexivity.
Qed.

(** * Further properties of the package *)

(** ** [XYFromDense] *)

Lemma mapM_panic {A B : Type} (f : A -> result B) (l : list A) (x : A) :
  In x l -> (forall y, In y l -> is_panic (f y)) -> is_panic (mapM f l).
Proof.
  destruct l as [|y l]; intros Hin Hf; [contradiction|].
  cbn [mapM]. destruct (Hf y (or_introl eq_refl)) as [msg ->].
  eexists; reflexivity.
Qed.

(** X1: [XYFromDense] returns the rows of a matrix, in order, as points
    [(At(i,0), At(i,1))]; it succeeds exactly when the matrix is not nil
    and has two columns or no row, panics otherwise, and never returns an
    error value. *)
Theorem XYFromDense_rows (m : mat.Dense) :
  (is_panic (XYFromDense None))
  /\ ((exists pts, XYFromDense (Some m) = Ok pts)
      <-> (mat.rows m = 0%nat \/ 2 <= mat.cols m)%nat)
  /\ (is_panic (XYFromDense (Some m))
      <-> (0 < mat.rows m /\ mat.cols m < 2)%nat)
  /\ (forall pts,
         XYFromDense (Some m) = Ok pts ->
         length pts = mat.rows m
         /\ forall i, (i < mat.rows m)%nat ->
                      nth_error pts i
                      = Some (plotter.mkXY (mat.elem m i 0) (mat.elem m i 1))).
Proof.
  assert (Hok : (2 <= mat.cols m)%nat ->
                XYFromDense (Some m)
                = Ok (map (fun i => plotter.mkXY (mat.elem m i 0) (mat.elem m i 1))
                          (seq 0 (mat.rows m)))).
  { intros Hc. unfold XYFromDense. apply mapM_ok. intros i Hi. apply in_seq in Hi.
    rewrite !At_ok by lia. reflexivity. }
  assert (Hbad : (0 < mat.rows m)%nat -> (mat.cols m < 2)%nat ->
                 is_panic (XYFromDense (Some m))).
  { intros Hr Hc. unfold XYFromDense. apply (mapM_panic _ _ 0%nat).
    - apply in_seq. lia.
    - intros i Hi. apply in_seq in Hi. unfold mat.At.
      assert (Hi' : (i <? mat.rows m)%nat = true) by (apply Nat.ltb_lt; lia).
      rewrite Hi'. cbn [negb].
      destruct (0 <? mat.cols m)%nat eqn:H0; cbn [negb bind];
        [|eexists; reflexivity].
      assert (H1 : (1 <? mat.cols m)%nat = false) by (apply Nat.ltb_ge; lia).
      rewrite H1. eexists; reflexivity. }
  assert (Hempty : mat.rows m = 0%nat -> XYFromDense (Some m) = Ok []).
  { intros Hr. unfold XYFromDense. rewrite Hr. reflexivity. }
  split; [eexists; reflexivity|]. split; [|split].
  - split.
    + intros [pts Hpts].
      destruct (Nat.eq_dec (mat.rows m) 0) as [|Hr]; [left; assumption|].
      destruct (le_lt_dec 2 (mat.cols m)) as [|Hc]; [right; assumption|].
      destruct (Hbad ltac:(lia) Hc) as [msg Hmsg]. congruence.
    + intros [Hr|Hc]; eexists; [apply Hempty, Hr | apply Hok, Hc].
  - split.
    + intros [msg Hmsg].
      destruct (Nat.eq_dec (mat.rows m) 0) as [Hr|Hr];
        [rewrite (Hempty Hr) in Hmsg; discriminate|].
      destruct (le_lt_dec 2 (mat.cols m)) as [Hc|Hc];
        [rewrite (Hok Hc) in Hmsg; discriminate|].
      lia.
    + intros [Hr Hc]. apply Hbad; assumption.
  - intros pts Hpts.
    destruct (Nat.eq_dec (mat.rows m) 0) as [Hr|Hr].
    + rewrite (Hempty Hr) in Hpts. injection Hpts as <-. rewrite Hr.
      split; [reflexivity | intros i Hi; lia].
    + destruct (le_lt_dec 2 (mat.cols m)) as [Hc|Hc].
      * rewrite (Hok Hc) in Hpts. injection Hpts as <-.
        rewrite length_map, length_seq. split; [reflexivity|].
        intros i Hi. rewrite nth_error_map_seq by exact Hi. reflexivity.
      * destruct (Hbad ltac:(lia) Hc) as [msg Hmsg]. congruence.
Qed.

Lemma map_nth_seq (l : list float64) :
  map (fun i => nth i l (Fin 0)) (seq 0 (length l)) = l.
Proof.
  apply nth_error_ext. intros i.
  destruct (le_lt_dec (length l) i) as [Hi|Hi].
  - rewrite (proj2 (nth_error_None l i)) by exact Hi.
    apply nth_error_None. rewrite length_map, length_seq. exact Hi.
  - rewrite nth_error_map_seq by exact Hi.
    symmetry. apply nth_error_nth'. exact Hi.
Qed.

Lemma combine_nth_seq (x y : list float64) :
  length x = length y ->
  map (fun i => plotter.mkXY (nth i x (Fin 0)) (nth i y (Fin 0))) (seq 0 (length x))
  = map (fun p => plotter.mkXY (fst p) (snd p)) (combine x y).
Proof.
  intros Hxy. apply nth_error_ext. intros i.
  destruct (le_lt_dec (length x) i) as [Hi|Hi].
  - rewrite (proj2 (nth_error_None _ i))
      by (rewrite length_map, length_seq; exact Hi).
    symmetry. apply nth_error_None.
    rewrite length_map, length_combine. lia.
  - rewrite nth_error_map_seq by exact Hi.
    symmetry.
    rewrite (map_nth_error _ i (combine x y)
               (d := (nth i x (Fin 0), nth i y (Fin 0)))); [reflexivity|].
    rewrite (nth_error_nth' _ (Fin 0, Fin 0)) by (rewrite length_combine; lia).
    rewrite combine_nth by exact Hxy. reflexivity.
Qed.

(** X2: the example's data points.  Two coordinate slices of the same
    non-zero length, set as the columns of a matrix and read back by
    [XYFromDense], give the points [(x[i], y[i])] in order. *)
Theorem dataXY_pairs (x y : list float64) :
  length x <> 0%nat -> length x = length y ->
  Example.dataXY x y
  = Ok (map (fun p => plotter.mkXY (fst p) (snd p)) (combine x y)).
Proof.
  intros Hx Hxy. unfold Example.dataXY.
  rewrite Rev1_build_data by assumption.
  unfold XYFromDense.
  erewrite mapM_ok
    with (g := fun i => plotter.mkXY (nth i x (Fin 0)) (nth i y (Fin 0))).
  - cbn [dataMx mat.rows]. rewrite combine_nth_seq by exact Hxy. reflexivity.
  - intros i Hi. apply in_seq in Hi. cbn [dataMx mat.rows] in Hi.
    rewrite !At_ok by (cbn [dataMx mat.rows mat.cols]; lia). reflexivity.
Qed.

Lemma dataXY_pairs_witness :
  length [Fin 1; Fin 2] <> 0%nat
  /\ length [Fin 1; Fin 2] = length [Fin 3; Fin 4]
  /\ Example.dataXY [Fin 1; Fin 2] [Fin 3; Fin 4]
     = Ok (map (fun p => plotter.mkXY (fst p) (snd p))
               (combine [Fin 1; Fin 2] [Fin 3; Fin 4])).
Proof.
  assert (H1 : length [Fin 1; Fin 2] <> 0%nat) by discriminate.
  assert (H2 : length [Fin 1; Fin 2] = length [Fin 3; Fin 4]) by reflexivity.
  split; [exact H1|]. split; [exact H2|].
  exact (dataXY_pairs [Fin 1; Fin 2] [Fin 3; Fin 4] H1 H2).
Defined.

(** ** The outcomes of the constructors from data *)

Lemma Quantile_after_guard (c : float64) :
  fle c (Fin 0) || fgt c (Fin 1) = false ->
  exists q, distuv.ChiSquared2_Quantile c = Ok q.
Proof.
  intros Hg. apply orb_false_iff in Hg. destruct Hg as [H0 H1].
  unfold distuv.ChiSquared2_Quantile. unfold fgt in H1. rewrite H1.
  assert (Hlt : flt c (Fin 0) = false).
  { destruct c as [r| | |]; cbn in *; try reflexivity; try discriminate.
    apply Rleb_false in H0. apply Rltb_false. lra. }
  rewrite Hlt. cbn [orb]. eexists; reflexivity.
Qed.

Lemma At_Ok_inv (m : mat.Dense) (i j : nat) (v : float64) :
  mat.At m i j = Ok v ->
  (i < mat.rows m)%nat /\ (j < mat.cols m)%nat /\ v = mat.elem m i j.
Proof.
  unfold mat.At.
  destruct (i <? mat.rows m)%nat eqn:Hi; cbn [negb]; [|discriminate].
  destruct (j <? mat.cols m)%nat eqn:Hj; cbn [negb]; [|discriminate].
  intros H; injection H as <-.
  apply Nat.ltb_lt in Hi, Hj. auto.
Qed.

Lemma index_Ok_iff (l : list float64) (i : nat) :
  (exists v, index l i = Ok v) <-> (i < length l)%nat.
Proof.
  unfold index. split.
  - intros [v Hv]. destruct (nth_error l i) eqn:E; [|discriminate].
    apply nth_error_Some. congruence.
  - intros Hi. apply nth_error_Some in Hi.
    destruct (nth_error l i); [eexists; reflexivity | contradiction].
Qed.

(** X3: [NewDataConfidence] returns an error exactly when both slices
    are non-empty and of the same length and the confidence is [<= 0] or
    [> 1]; the error names that confidence, and no other error exists.
    A NaN confidence is not rejected. *)
Theorem NewDataConfidence_error_iff (PCA : mat.Dense -> option stat.PC)
        (x y : list float64) (c : float64) :
  (is_err (Rev1.NewDataConfidence PCA x y c)
   <-> (length x <> 0%nat /\ length y <> 0%nat /\ length x = length y
        /\ fle c (Fin 0) || fgt c (Fin 1) = true))
  /\ (forall err, Rev1.NewDataConfidence PCA x y c = Err err ->
                  err = InvalidConfidence c)
  /\ ~ is_err (Rev1.NewDataConfidence PCA x y NaN).
Proof.
  assert (Hmain : forall c',
             (fle c' (Fin 0) || fgt c' (Fin 1) = true ->
              length x <> 0%nat -> length y <> 0%nat -> length x = length y ->
              Rev1.NewDataConfidence PCA x y c' = Err (InvalidConfidence c'))
             /\ (is_err (Rev1.NewDataConfidence PCA x y c') ->
                 length x <> 0%nat /\ length y <> 0%nat /\ length x = length y
                 /\ fle c' (Fin 0) || fgt c' (Fin 1) = true)).
  { intros c'. split.
    - intros Hg Hx Hy Hxy. unfold Rev1.NewDataConfidence.
      apply Nat.eqb_neq in Hx, Hy. apply Nat.eqb_eq in Hxy.
      rewrite Hx, Hy, Hxy, Hg. reflexivity.
    - intros Herr.
      destruct (fle c' (Fin 0) || fgt c' (Fin 1)) eqn:Hg;
        [|exfalso; exact (Rev1_NewDataConfidence_no_error PCA x y c' Hg Herr)].
      destruct Herr as [err Herr]. unfold Rev1.NewDataConfidence in Herr.
      destruct (length x =? 0)%nat eqn:Hx; cbn [orb] in Herr; [discriminate|].
      destruct (length y =? 0)%nat eqn:Hy; [discriminate|].
      destruct (length x =? length y)%nat eqn:Hxy; cbn [negb] in Herr; [|discriminate].
      apply Nat.eqb_neq in Hx, Hy. apply Nat.eqb_eq in Hxy. auto. }
  split; [|split].
  - split; [apply Hmain|]. intros (Hx & Hy & Hxy & Hg).
    eexists. apply Hmain; assumption.
  - intros err Herr.
    destruct (proj2 (Hmain c) (ex_intro _ err Herr)) as (Hx & Hy & Hxy & Hg).
    rewrite (proj1 (Hmain c) Hg Hx Hy Hxy) in Herr. injection Herr as <-. reflexivity.
  - intros Herr. apply (proj2 (Hmain NaN)) in Herr.
    destruct Herr as (_ & _ & _ & Hg). discriminate Hg.
Qed.

(** X4: past its input checks [NewDataConfidence] returns an ellipse
    exactly when the principal component analysis succeeds and answers
    with at least two variances and a matrix of direction vectors that
    has the entries (0,0) and (0,1); when the analysis fails it panics
    with "Could not determine Principal Components", and a short answer
    panics on the missing index. *)
Theorem NewDataConfidence_succeeds_iff (PCA : mat.Dense -> option stat.PC)
        (x y : list float64) (c : float64) :
  length x <> 0%nat -> length x = length y ->
  fle c (Fin 0) || fgt c (Fin 1) = false ->
  ((exists e, Rev1.NewDataConfidence PCA x y c = Ok e)
   <-> exists pc,
      PCA (dataMx x y) = Some pc
      /\ (2 <= length (stat.VarsTo pc))%nat
      /\ (0 < mat.rows (stat.VectorsTo pc))%nat
      /\ (2 <= mat.cols (stat.VectorsTo pc))%nat)
  /\ (PCA (dataMx x y) = None ->
      Rev1.NewDataConfidence PCA x y c
      = Panic "Could not determine Principal Components")
  /\ ((forall e, Rev1.NewDataConfidence PCA x y c <> Ok e) ->
      is_panic (Rev1.NewDataConfidence PCA x y c)).
Proof.
  intros Hx Hxy Hg. split; [|split].
  - split.
    + intros [e He]. apply Rev1_NewDataConfidence_inv in He.
      destruct He as (_ & _ & _ & pc & q & l0 & l1 & v01 & v00 & He).
      destruct He as (Hpc & _ & _ & Hl1 & H01 & _ & _).
      exists pc. apply At_Ok_inv in H01.
      assert (1 < length (stat.VarsTo pc))%nat
        by (apply index_Ok_iff; eexists; exact Hl1).
      repeat split; try assumption; lia.
    + intros (pc & Hpc & Hv & Hr & Hc).
      destruct (Quantile_after_guard c Hg) as [q Hq].
      destruct (proj2 (index_Ok_iff (stat.VarsTo pc) 0) ltac:(lia)) as [l0 Hl0].
      destruct (proj2 (index_Ok_iff (stat.VarsTo pc) 1) ltac:(lia)) as [l1 Hl1].
      eexists.
      apply (Rev1_NewDataConfidence_eq PCA x y c pc q l0 l1
               (mat.elem (stat.VectorsTo pc) 0 1) (mat.elem (stat.VectorsTo pc) 0 0));
        auto; apply At_ok; lia.
  - intros Hpc. unfold Rev1.NewDataConfidence.
    apply Nat.eqb_neq in Hx.
    assert (Hy : (length y =? 0)%nat = false) by (rewrite <- Hxy; exact Hx).
    assert (Hxy' : (length x =? length y)%nat = true) by (apply Nat.eqb_eq; exact Hxy).
    rewrite Hx, Hy, Hxy', Hg. cbn [orb negb].
    rewrite Rev1_build_data by (try apply Nat.eqb_neq; assumption).
    rewrite Hpc. reflexivity.
  - intros Hno.
    destruct (Rev1.NewDataConfidence PCA x y c) as [e|err|msg] eqn:E.
    + exfalso. exact (Hno e eq_refl).
    + exfalso. apply (Rev1_NewDataConfidence_no_error PCA x y c Hg).
      rewrite E. eexists; reflexivity.
    + eexists; reflexivity.
Qed.

Lemma NewDataConfidence_succeeds_iff_witness :
  length (map Fin crossX) <> 0%nat
  /\ length (map Fin crossX) = length (map Fin crossY)
  /\ fle (Fin 0.95) (Fin 0) || fgt (Fin 0.95) (Fin 1) = false
  /\ ((exists e, Rev1.NewDataConfidence (answering crossPC) (map Fin crossX)
                   (map Fin crossY) (Fin 0.95) = Ok e)
      <-> exists pc,
         answering crossPC (dataMx (map Fin crossX) (map Fin crossY)) = Some pc
         /\ (2 <= length (stat.VarsTo pc))%nat
         /\ (0 < mat.rows (stat.VectorsTo pc))%nat
         /\ (2 <= mat.cols (stat.VectorsTo pc))%nat)
  /\ (answering crossPC (dataMx (map Fin crossX) (map Fin crossY)) = None ->
      Rev1.NewDataConfidence (answering crossPC) (map Fin crossX) (map Fin crossY)
                             (Fin 0.95)
      = Panic "Could not determine Principal Components")
  /\ ((forall e, Rev1.NewDataConfidence (answering crossPC) (map Fin crossX)
                   (map Fin crossY) (Fin 0.95) <> Ok e) ->
      is_panic (Rev1.NewDataConfidence (answering crossPC) (map Fin crossX)
                  (map Fin crossY) (Fin 0.95))).
Proof.
  assert (H1 : length (map Fin crossX) <> 0%nat) by discriminate.
  assert (H2 : length (map Fin crossX) = length (map Fin crossY)) by reflexivity.
  assert (H3 : fle (Fin 0.95) (Fin 0) || fgt (Fin 0.95) (Fin 1) = false)
    by (unfold fle, fgt, flt; Rdec; reflexivity).
  split; [exact H1|]. split; [exact H2|]. split; [exact H3|].
  exact (NewDataConfidence_succeeds_iff (answering crossPC) (map Fin crossX)
           (map Fin crossY) (Fin 0.95) H1 H2 H3).
Defined.

Lemma Rev2_NewWithConfidence_no_error (PCA : mat.Dense -> option stat.PC)
      (data : option mat.Dense) (c : float64) :
  fle c (Fin 0) || fgt c (Fin 1) = false ->
  ~ is_err (Rev2.NewWithConfidence PCA data c).
Proof.
  intros Hg [err Herr]. unfold Rev2.NewWithConfidence in Herr. rewrite Hg in Herr.
  destruct data as [d|]; [|discriminate].
  unfold mat.Col, mat.At, index, distuv.ChiSquared2_Quantile in Herr.
  repeat match type of Herr with
         | context [if ?b then _ else _] => destruct b; cbn [bind] in Herr
         | context [match PCA ?d with _ => _ end] => destruct (PCA d); cbn [bind] in Herr
         | context [match nth_error ?l ?i with _ => _ end] =>
             destruct (nth_error l i); cbn [bind] in Herr
         end; discriminate.
Qed.

Lemma Rev3_NewWithDataConfidence_no_error (PCA : mat.Dense -> option stat.PC)
      (data : option mat.Dense) (c : float64) :
  fle c (Fin 0) || fgt c (Fin 1) = false ->
  ~ is_err (Rev3.NewWithDataConfidence PCA data c).
Proof.
  intros Hg [err Herr]. unfold Rev3.NewWithDataConfidence in Herr. rewrite Hg in Herr.
  destruct data as [d|]; [|discriminate].
  unfold mat.Col, mat.At, index, distuv.ChiSquared2_Quantile in Herr.
  repeat match type of Herr with
         | context [if ?b then _ else _] => destruct b; cbn [bind] in Herr
         | context [match PCA ?d with _ => _ end] => destruct (PCA d); cbn [bind] in Herr
         | context [match nth_error ?l ?i with _ => _ end] =>
             destruct (nth_error l i); cbn [bind] in Herr
         end; discriminate.
Qed.

(** X5: [NewWithConfidence] and [NewWithDataConfidence] return an error
    exactly when the confidence is [<= 0] or [> 1], whatever the data:
    the confidence is checked before the matrix is touched, so a nil
    matrix with a bad confidence is an error, and a nil matrix with a
    confidence that passes is a panic.  The error names the confidence. *)
Theorem NewWithConfidence_error_iff (PCA : mat.Dense -> option stat.PC)
        (data : option mat.Dense) (c : float64) :
  (is_err (Rev2.NewWithConfidence PCA data c)
   <-> fle c (Fin 0) || fgt c (Fin 1) = true)
  /\ (is_err (Rev3.NewWithDataConfidence PCA data c)
      <-> fle c (Fin 0) || fgt c (Fin 1) = true)
  /\ (forall err, Rev2.NewWithConfidence PCA data c = Err err ->
                  err = InvalidConfidence c)
  /\ (forall err, Rev3.NewWithDataConfidence PCA data c = Err err ->
                  err = InvalidConfidence c)
  /\ (fle c (Fin 0) || fgt c (Fin 1) = false ->
      is_panic (Rev2.NewWithConfidence PCA None c)
      /\ is_panic (Rev3.NewWithDataConfidence PCA None c)).
Proof.
  destruct (fle c (Fin 0) || fgt c (Fin 1)) eqn:Hg.
  - assert (H2 : Rev2.NewWithConfidence PCA data c = Err (InvalidConfidence c))
      by (unfold Rev2.NewWithConfidence; rewrite Hg; reflexivity).
    assert (H3 : Rev3.NewWithDataConfidence PCA data c = Err (InvalidConfidence c))
      by (unfold Rev3.NewWithDataConfidence; rewrite Hg; reflexivity).
    rewrite H2, H3. repeat split; try (intros; eexists; reflexivity);
      try discriminate; intros err H; injection H as <-; reflexivity.
  - pose proof (Rev2_NewWithConfidence_no_error PCA data c Hg) as H2.
    pose proof (Rev3_NewWithDataConfidence_no_error PCA data c Hg) as H3.
    repeat split; try discriminate; try (intros H; contradiction).
    + intros err H. exfalso. apply H2. eexists; exact H.
    + intros err H. exfalso. apply H3. eexists; exact H.
    + unfold Rev2.NewWithConfidence. rewrite Hg. eexists; reflexivity.
    + unfold Rev3.NewWithDataConfidence. rewrite Hg. eexists; reflexivity.
Qed.

(** ** The outcomes of [LinePoints] *)

Lemma IsFin_fadd (x y : float64) : IsFin (fadd x y) = IsFin x && IsFin y.
Proof. destruct x, y; reflexivity. Qed.

Lemma IsFin_fmul (x y : float64) : IsFin (fmul x y) = IsFin x && IsFin y.
Proof.
  destruct x as [r| | |], y as [s| | |]; try reflexivity;
    cbn [fmul]; unfold signed; Rdec; reflexivity.
Qed.

Lemma IsFin_fneg (x : float64) : IsFin (fneg x) = IsFin x.
Proof. destruct x; reflexivity. Qed.

Lemma IsFin_Cos (x : float64) : IsFin (math.Cos x) = IsFin x.
Proof. destruct x; reflexivity. Qed.

Lemma IsFin_Sin (x : float64) : IsFin (math.Sin x) = IsFin x.
Proof. destruct x; reflexivity. Qed.

Lemma IsFin_true (x : float64) : IsFin x = true <-> exists r, x = Fin r.
Proof.
  split.
  - destruct x as [r| | |]; try discriminate. eauto.
  - intros [r ->]. reflexivity.
Qed.

Lemma finiteXY_IsFin (p : plotter.XY) :
  finiteXY p <-> IsFin (plotter.X p) && IsFin (plotter.Y p) = true.
Proof.
  unfold finiteXY. destruct p as [[x| | |] [y| | |]]; cbn; intuition congruence.
Qed.

Lemma IsFin_rotatedPoint (a b angle : float64) (n : Z) (i : nat) :
  (2 <= n)%Z ->
  IsFin (plotter.X (rotatedPoint a b angle n i))
  && IsFin (plotter.Y (rotatedPoint a b angle n i))
  = IsFin a && IsFin b && IsFin angle.
Proof.
  intros Hn. unfold rotatedPoint, rotate. cbn [plotter.X plotter.Y].
  rewrite spanPoint_Fin by exact Hn.
  rewrite !IsFin_fadd, !IsFin_fmul, !IsFin_fneg, !IsFin_Cos, !IsFin_Sin.
  cbn [IsFin IsNaN IsInf orb negb andb].
  destruct (IsFin a), (IsFin b), (IsFin angle); reflexivity.
Qed.

Lemma IsFin_translate (cx cy : float64) (p : plotter.XY) :
  IsFin (plotter.X (translate cx cy p)) && IsFin (plotter.Y (translate cx cy p))
  = IsFin (plotter.X p) && IsFin (plotter.Y p) && IsFin cx && IsFin cy.
Proof.
  unfold translate. cbn [plotter.X plotter.Y]. rewrite !IsFin_fadd.
  destruct (IsFin (plotter.X p)), (IsFin (plotter.Y p)), (IsFin cx), (IsFin cy);
    reflexivity.
Qed.

(** The points pass [plotter.NewLinePoints] when the first of them is
    finite and fail with an error when it is not. *)
Lemma NewLinePoints_by_fields (f : nat -> plotter.XY) (n : nat) (fin : bool) :
  (0 < n)%nat ->
  (forall i, IsFin (plotter.X (f i)) && IsFin (plotter.Y (f i)) = fin) ->
  if fin
  then curveOf (plotter.NewLinePoints (map f (seq 0 n))) (map f (seq 0 n))
       /\ Forall finiteXY (map f (seq 0 n))
  else is_err (plotter.NewLinePoints (map f (seq 0 n))).
Proof.
  intros Hn Hf.
  destruct (NewLinePoints_cases (map f (seq 0 n))) as [(H & HF) | (H & HF)];
    destruct fin.
  - split; assumption.
  - exfalso. rewrite Forall_forall in HF.
    assert (Hin : In (f 0%nat) (map f (seq 0 n)))
      by (apply in_map, in_seq; lia).
    apply HF, finiteXY_IsFin in Hin. rewrite Hf in Hin. discriminate.
  - exfalso. apply HF, Forall_map_seq. intros i _.
    apply finiteXY_IsFin, Hf.
  - exact H.
Qed.

Lemma Rev1_LinePoints_by_fields (e : Rev1.Ellipse) (size : Z) :
  (2 <= size)%Z ->
  if IsFin (Rev1.a e) && IsFin (Rev1.b e) && IsFin (Rev1.angle e)
  then exists pts, curveOf (Rev1.LinePoints e size) pts
                   /\ len pts = size /\ Forall finiteXY pts
  else is_err (Rev1.LinePoints e size).
Proof.
  intros Hs. rewrite Rev1_LinePoints_eq by exact Hs.
  pose proof (NewLinePoints_by_fields
                (rotatedPoint (Rev1.a e) (Rev1.b e) (Rev1.angle e) size)
                (Z.to_nat size)
                (IsFin (Rev1.a e) && IsFin (Rev1.b e) && IsFin (Rev1.angle e))
                ltac:(lia)
                (fun i => IsFin_rotatedPoint _ _ _ size i Hs)) as H.
  destruct (IsFin (Rev1.a e) && IsFin (Rev1.b e) && IsFin (Rev1.angle e));
    [|exact H].
  destruct H as [H HF]. eexists. split; [exact H|]. split; [|exact HF].
  unfold len. rewrite length_map, length_seq. lia.
Qed.

Lemma Rev2_LinePoints_by_fields (e : Rev2.Ellipse) (size : Z) :
  (2 <= size)%Z ->
  if IsFin (Rev2.a e) && IsFin (Rev2.b e) && IsFin (Rev2.angle e)
     && IsFin (Rev2.xmean e) && IsFin (Rev2.ymean e)
  then exists pts, curveOf (Rev2.LinePoints e size) pts
                   /\ len pts = size /\ Forall finiteXY pts
  else is_err (Rev2.LinePoints e size).
Proof.
  intros Hs. rewrite Rev2_LinePoints_eq by exact Hs.
  pose proof (NewLinePoints_by_fields
                (fun i => translate (Rev2.xmean e) (Rev2.ymean e)
                            (rotatedPoint (Rev2.a e) (Rev2.b e) (Rev2.angle e) size i))
                (Z.to_nat size)
                (IsFin (Rev2.a e) && IsFin (Rev2.b e) && IsFin (Rev2.angle e)
                 && IsFin (Rev2.xmean e) && IsFin (Rev2.ymean e))
                ltac:(lia)) as H.
  cbv beta in H.
  specialize (H (fun i => eq_trans (IsFin_translate _ _ _)
                            (f_equal (fun v => v && _ && _)
                                     (IsFin_rotatedPoint _ _ _ size i Hs)))).
  destruct (IsFin (Rev2.a e) && IsFin (Rev2.b e) && IsFin (Rev2.angle e)
            && IsFin (Rev2.xmean e) && IsFin (Rev2.ymean e)); [|exact H].
  destruct H as [H HF]. eexists. split; [exact H|]. split; [|exact HF].
  unfold len. rewrite length_map, length_seq. lia.
Qed.

Lemma Rev3_LinePoints_by_fields (e : Rev3.Ellipse) (size : Z) :
  (2 <= size)%Z ->
  if IsFin (Rev3.a e) && IsFin (Rev3.b e) && IsFin (Rev3.angle e)
     && IsFin (Rev3.x e) && IsFin (Rev3.y e)
  then exists pts, curveOf (Rev3.LinePoints e size) pts
                   /\ len pts = size /\ Forall finiteXY pts
  else is_err (Rev3.LinePoints e size).
Proof.
  intros Hs. rewrite Rev3_LinePoints_eq by exact Hs.
  pose proof (NewLinePoints_by_fields
                (fun i => translate (Rev3.x e) (Rev3.y e)
                            (rotatedPoint (Rev3.a e) (Rev3.b e) (Rev3.angle e) size i))
                (Z.to_nat size)
                (IsFin (Rev3.a e) && IsFin (Rev3.b e) && IsFin (Rev3.angle e)
                 && IsFin (Rev3.x e) && IsFin (Rev3.y e))
                ltac:(lia)) as H.
  cbv beta in H.
  specialize (H (fun i => eq_trans (IsFin_translate _ _ _)
                            (f_equal (fun v => v && _ && _)
                                     (IsFin_rotatedPoint _ _ _ size i Hs)))).
  destruct (IsFin (Rev3.a e) && IsFin (Rev3.b e) && IsFin (Rev3.angle e)
            && IsFin (Rev3.x e) && IsFin (Rev3.y e)); [|exact H].
  destruct H as [H HF]. eexists. split; [exact H|]. split; [|exact HF].
  unfold len. rewrite length_map, length_seq. lia.
Qed.



(** ** From data to a curve *)

Lemma IsFin_Sqrt_false (x : float64) : IsFin x = false -> IsFin (math.Sqrt x) = false.
Proof. destruct x; cbn; intros H; try discriminate; reflexivity. Qed.

Lemma fold_fadd_Fin (xs : list R) (acc : R) :
  fold_left fadd (map Fin xs) (Fin acc) = Fin (acc + Rsum xs).
Proof.
  revert acc. induction xs as [|x xs IH]; intros acc; cbn [map fold_left Rsum fold_right].
  - f_equal. lra.
  - cbn [fadd]. rewrite IH. f_equal. unfold Rsum. lra.
Qed.

(** [stat.Mean] of finite values is their arithmetic mean. *)
Lemma Mean_Fin (xs : list R) :
  xs <> [] -> stat.Mean (map Fin xs) = Fin (Rmean xs).
Proof.
  intros Hne. unfold stat.Mean, floats.Sum, len, float64_of_int, Rmean.
  rewrite fold_fadd_Fin, length_map, <- INR_IZR_INZ.
  assert (Hpos : 0 < INR (length xs)).
  { apply lt_0_INR. destruct xs; [contradiction | cbn; lia]. }
  cbn [fdiv]. assert (H : Rltb 0 (INR (length xs)) = true) by (apply Rltb_true; exact Hpos).
  rewrite H. f_equal. lra.
Qed.

Lemma Col_length (d : mat.Dense) (j : nat) (col : list float64) :
  mat.Col (mat.rows d) j d = Ok col -> length col = mat.rows d.
Proof.
  unfold mat.Col. destruct (negb (j <? mat.cols d)%nat); [discriminate|].
  destruct (negb (mat.rows d =? mat.rows d)%nat); [discriminate|].
  intros H; injection H as <-. rewrite length_map, length_seq. reflexivity.
Qed.



(** X8: at confidence 1, which the check accepts, the quantile is
    [+Inf]: every ellipse a constructor returns has a first axis that is
    infinite or NaN, and [LinePoints] returns an error on it for every
    size of at least 2. *)
Theorem confidence_one_gives_no_curve (PCA : mat.Dense -> option stat.PC)
        (size : Z) :
  (2 <= size)%Z ->
  (forall x y e,
      Rev1.NewDataConfidence PCA x y (Fin 1) = Ok e ->
      IsFin (Rev1.a e) = false /\ is_err (Rev1.LinePoints e size))
  /\ (forall data e,
      Rev2.NewWithConfidence PCA data (Fin 1) = Ok e ->
      IsFin (Rev2.a e) = false /\ is_err (Rev2.LinePoints e size))
  /\ (forall data e,
      Rev3.NewWithDataConfidence PCA data (Fin 1) = Ok e ->
      IsFin (Rev3.a e) = false /\ is_err (Rev3.LinePoints e size)).
Proof.
  intros Hs. split; [|split].
  - intros x y e He. apply Rev1_NewDataConfidence_inv in He.
    destruct He as (_ & _ & _ & pc & q & l0 & l1 & v01 & v00 & He).
    destruct He as (_ & Hq & _ & _ & _ & _ & ->).
    rewrite Quantile_one in Hq. injection Hq as <-.
    assert (Ha : IsFin (fmul (math.Sqrt PInf) (math.Sqrt l0)) = false)
      by (rewrite IsFin_fmul; reflexivity).
    split; [exact Ha|].
    pose proof (Rev1_LinePoints_by_fields
                  (Rev1.mkEllipse (fmul (math.Sqrt PInf) (math.Sqrt l0))
                                  (fmul (math.Sqrt PInf) (math.Sqrt l1))
                                  (shiftAngle (math.Atan2 v01 v00))) size Hs) as H.
    cbn [Rev1.a Rev1.b Rev1.angle] in H. rewrite Ha in H. exact H.
  - intros data e He. apply Rev2_NewWithConfidence_inv in He.
    destruct He as (_ & d & cx & cy & pc & q & l0 & l1 & v01 & v00 & He).
    destruct He as (_ & _ & _ & _ & Hq & _ & _ & _ & _ & ->).
    rewrite Quantile_one in Hq. injection Hq as <-.
    assert (Ha : IsFin (math.Sqrt (fmul PInf l0)) = false)
      by (apply IsFin_Sqrt_false; rewrite IsFin_fmul; reflexivity).
    split; [exact Ha|].
    pose proof (Rev2_LinePoints_by_fields
                  (Rev2.mkEllipse (math.Sqrt (fmul PInf l0)) (math.Sqrt (fmul PInf l1))
                                  (shiftAngle (math.Atan2 v01 v00))
                                  (stat.Mean cx) (stat.Mean cy)) size Hs) as H.
    cbn [Rev2.a Rev2.b Rev2.angle Rev2.xmean Rev2.ymean] in H.
    rewrite Ha in H. exact H.
  - intros data e He. apply Rev3_NewWithDataConfidence_inv in He.
    destruct He as (_ & d & cx & cy & pc & q & l0 & l1 & v01 & v00 & He).
    destruct He as (_ & _ & _ & _ & Hq & _ & _ & _ & _ & ->).
    rewrite Quantile_one in Hq. injection Hq as <-.
    assert (Ha : IsFin (math.Sqrt (fmul PInf l0)) = false)
      by (apply IsFin_Sqrt_false; rewrite IsFin_fmul; reflexivity).
    split; [exact Ha|].
    pose proof (Rev3_LinePoints_by_fields
                  (Rev3.mkEllipse (stat.Mean cx) (stat.Mean cy)
                                  (math.Sqrt (fmul PInf l0)) (math.Sqrt (fmul PInf l1))
                                  (shiftAngle (math.Atan2 v01 v00))) size Hs) as H.
    cbn [Rev3.a Rev3.b Rev3.angle Rev3.x Rev3.y] in H.
    rewrite Ha in H. exact H.
Qed.

Lemma confidence_one_gives_no_curve_witness :
  (2 <= 100)%Z
  /\ exists e,
      Rev1.NewDataConfidence (answering crossPC) (map Fin crossX) (map Fin crossY)
                             (Fin 1) = Ok e
      /\ IsFin (Rev1.a e) = false /\ is_err (Rev1.LinePoints e 100).
Proof.
  assert (Hs : (2 <= 100)%Z) by lia.
  split; [exact Hs|].
  assert (Hg : fle (Fin 1) (Fin 0) || fgt (Fin 1) (Fin 1) = false)
    by (unfold fle, fgt, flt; Rdec; reflexivity).
  assert (He : Rev1.NewDataConfidence (answering crossPC) (map Fin crossX)
                 (map Fin crossY) (Fin 1)
               = Ok (Rev1.mkEllipse (fmul (math.Sqrt PInf) (math.Sqrt (Fin (8/3))))
                                    (fmul (math.Sqrt PInf) (math.Sqrt (Fin (2/3))))
                                    (shiftAngle (math.Atan2 (Fin 0) (Fin 1))))).
  { apply (Rev1_NewDataConfidence_eq _ _ _ _ crossPC PInf (Fin (8/3)) (Fin (2/3))
             (Fin 0) (Fin 1)); try reflexivity; try exact Hg; try exact Quantile_one.
    discriminate. }
  eexists. split; [exact He|].
  exact (proj1 (confidence_one_gives_no_curve (answering crossPC) 100 Hs)
               (map Fin crossX) (map Fin crossY) _ He).
Defined.

(** What the constructors compute from finite data whose principal
    components are as gonum returns them, at a confidence in (0, 1): finite
    axes and a finite angle. *)
Lemma finite_answer (c l0 l1 : R) (xs ys : list R) (pc : stat.PC) :
  0 < c < 1 ->
  variances_of xs ys (stat.VarsTo pc) ->
  directions_of xs ys l0 l1 (stat.VectorsTo pc) ->
  exists (q v0 v1 v01 v00 rt : R),
    distuv.ChiSquared2_Quantile (Fin c) = Ok (Fin q)
    /\ index (stat.VarsTo pc) 0 = Ok (Fin v0)
    /\ index (stat.VarsTo pc) 1 = Ok (Fin v1)
    /\ mat.At (stat.VectorsTo pc) 0 1 = Ok (Fin v01)
    /\ mat.At (stat.VectorsTo pc) 0 0 = Ok (Fin v00)
    /\ shiftAngle (math.Atan2 (Fin v01) (Fin v00)) = Fin rt
    /\ math.Sqrt (Fin q) = Fin (sqrt q)
    /\ math.Sqrt (Fin v0) = Fin (sqrt v0) /\ math.Sqrt (Fin v1) = Fin (sqrt v1)
    /\ math.Sqrt (fmul (Fin q) (Fin v0)) = Fin (sqrt (q * v0))
    /\ math.Sqrt (fmul (Fin q) (Fin v1)) = Fin (sqrt (q * v1)).
Proof.
  intros Hc (v0 & v1 & Hvars & Hv & _ & _).
  intros (v00 & v10 & v01 & v11 & Hr & Hcl & H00 & _ & H01 & _).
  assert (Hq : 0 < -2 * ln (1 - c)) by (apply Quantile_pos; exact Hc).
  destruct (shiftAngle_range v01 v00) as (rt & Ht & _).
  exists (-2 * ln (1 - c)), v0, v1, v01, v00, rt.
  rewrite Hvars. cbn [fmul].
  rewrite !Sqrt_Fin by nra.
  repeat split; try reflexivity; try exact Ht.
  - apply Quantile_Fin. lra.
  - rewrite At_ok by lia. rewrite H01. reflexivity.
  - rewrite At_ok by lia. rewrite H00. reflexivity.
Qed.



(** ** The geometry of a generated curve *)

Lemma point_coordinates (cx cy a b theta : R) (n : Z) (i : nat) :
  (2 <= n)%Z ->
  translate (Fin cx) (Fin cy) (rotatedPoint (Fin a) (Fin b) (Fin theta) n i)
  = plotter.mkXY
      (Fin (a * cos (spanR n i) * cos theta - b * sin (spanR n i) * sin theta + cx))
      (Fin (a * cos (spanR n i) * sin theta + b * sin (spanR n i) * cos theta + cy)).
Proof.
  intros Hn. unfold rotatedPoint, translate, rotate. rewrite spanPoint_Fin by exact Hn.
  fold (spanR n i). cbn. f_equal; f_equal; lra.
Qed.

Lemma point_coordinates_origin (a b theta : R) (n : Z) (i : nat) :
  (2 <= n)%Z ->
  rotatedPoint (Fin a) (Fin b) (Fin theta) n i
  = plotter.mkXY
      (Fin (a * cos (spanR n i) * cos theta - b * sin (spanR n i) * sin theta + 0))
      (Fin (a * cos (spanR n i) * sin theta + b * sin (spanR n i) * cos theta + 0)).
Proof.
  intros Hn. unfold rotatedPoint, rotate. rewrite spanPoint_Fin by exact Hn.
  fold (spanR n i). cbn. f_equal; f_equal; lra.
Qed.

Lemma sin_cos_one (x : R) : sin x * sin x + cos x * cos x = 1.
Proof. pose proof (sin2_cos2 x) as H. unfold Rsqr in H. exact H. Qed.

Lemma coordinates_onEllipse (cx cy a b theta t : R) :
  a <> 0 -> b <> 0 ->
  onEllipse cx cy a b theta
    (plotter.mkXY (Fin (a * cos t * cos theta - b * sin t * sin theta + cx))
                  (Fin (a * cos t * sin theta + b * sin t * cos theta + cy))).
Proof.
  intros Ha Hb. eexists _, _. split; [reflexivity|].
  pose proof (sin_cos_one theta) as Hth. pose proof (sin_cos_one t) as Ht.
  set (C := cos theta) in *. set (S := sin theta) in *.
  set (c := cos t) in *. set (s := sin t) in *.
  replace (((a * c * C - b * s * S + cx - cx) * C
            + (a * c * S + b * s * C + cy - cy) * S) / a)
    with (c * (S * S + C * C)) by (field; exact Ha).
  replace ((- (a * c * C - b * s * S + cx - cx) * S
            + (a * c * S + b * s * C + cy - cy) * C) / b)
    with (s * (S * S + C * C)) by (field; exact Hb).
  rewrite Hth. cbn [pow]. lra.
Qed.

Lemma curve_Forall (f : nat -> plotter.XY) (size : Z) (P : plotter.XY -> Prop) :
  (0 <= size)%Z ->
  (forall i, exists px py, f i = plotter.mkXY (Fin px) (Fin py)) ->
  (forall i, P (f i)) ->
  exists pts,
    curveOf (plotter.NewLinePoints (map f (seq 0 (Z.to_nat size)))) pts
    /\ len pts = size /\ Forall P pts.
Proof.
  intros Hs Hfin HP. exists (map f (seq 0 (Z.to_nat size))). split; [|split].
  - apply NewLinePoints_finite, Forall_map_seq. intros i _.
    destruct (Hfin i) as (px & py & ->). repeat split.
  - unfold len. rewrite length_map, length_seq. lia.
  - apply Forall_map_seq. intros i _. apply HP.
Qed.

Lemma New_positive_axes (a b : R) :
  0 < a -> 0 < b -> fle (Fin a) (Fin 0) || fle (Fin b) (Fin 0) = false.
Proof. intros Ha Hb. unfold fle. Rdec; reflexivity. Qed.



Lemma spanR_first (n : Z) : spanR n 0 = 0.
Proof. unfold spanR. cbn [Z.of_nat]. lra. Qed.

Lemma spanR_last (n : Z) : (2 <= n)%Z -> spanR n (Z.to_nat (n - 1)) = 2 * PI.
Proof.
  intros Hn. unfold spanR. rewrite Z2Nat.id by lia.
  assert (0 < IZR (n - 1)) by (apply IZR_lt; lia). field. lra.
Qed.

Lemma start_coordinates (cx cy a b theta t : R) :
  cos t = 1 -> sin t = 0 ->
  plotter.mkXY (Fin (a * cos t * cos theta - b * sin t * sin theta + cx))
               (Fin (a * cos t * sin theta + b * sin t * cos theta + cy))
  = plotter.mkXY (Fin (a * cos theta + cx)) (Fin (a * sin theta + cy)).
Proof. intros -> ->. f_equal; f_equal; lra. Qed.



Lemma quarter_turn (a b cx cy t : R) :
  0 < a -> 0 < b ->
  inBox cx cy b a
    (plotter.mkXY (Fin (a * cos t * cos (PI / 2) - b * sin t * sin (PI / 2) + cx))
                  (Fin (a * cos t * sin (PI / 2) + b * sin t * cos (PI / 2) + cy))).
Proof.
  intros Ha Hb. eexists _, _. split; [reflexivity|].
  rewrite cos_PI2, sin_PI2.
  pose proof (SIN_bound t) as Hsin. pose proof (COS_bound t) as Hcos.
  split; apply Rabs_le; nra.
Qed.

Lemma Pi_half : fdiv math.Pi (Fin 2) = Fin (PI / 2).
Proof. unfold fdiv, math.Pi. Rdec; reflexivity. Qed.



(** ** The revisions against each other *)

(** [sqrt(q) * sqrt(l)] of revision 1 and [sqrt(q * l)] of revisions 2
    and 3 agree for every [l], finite or not, at the quantile of a
    confidence that passes the check. *)
Lemma Sqrt_fmul_agree (c q l : float64) :
  fle c (Fin 0) || fgt c (Fin 1) = false ->
  distuv.ChiSquared2_Quantile c = Ok q ->
  fmul (math.Sqrt q) (math.Sqrt l) = math.Sqrt (fmul q l).
Proof.
  intros Hg Hq. destruct (confidence_guard c Hg) as [-> | (r & -> & Hr)].
  - cbn in Hq. injection Hq as <-. reflexivity.
  - destruct (Quantile_cases r Hr) as [(_ & Hq' & Hpos) | (_ & Hq')];
      rewrite Hq' in Hq; injection Hq as <-.
    + destruct l as [rl| | |].
      * apply Sqrt_fmul_Fin. exact Hpos.
      * rewrite Sqrt_Fin by lra.
        assert (Hs : 0 < sqrt (-2 * ln (1 - r))) by (apply sqrt_lt_R0; exact Hpos).
        cbn. unfold signed.
        assert (H1 : Rltb 0 (sqrt (-2 * ln (1 - r))) = true) by (apply Rltb_true; exact Hs).
        assert (H2 : Rltb 0 (-2 * ln (1 - r)) = true) by (apply Rltb_true; exact Hpos).
        rewrite H1, H2. reflexivity.
      * rewrite Sqrt_Fin by lra. cbn. unfold signed.
        assert (H2 : Rltb 0 (-2 * ln (1 - r)) = true) by (apply Rltb_true; exact Hpos).
        rewrite H2. reflexivity.
      * rewrite Sqrt_Fin by lra. reflexivity.
    + destruct l as [rl| | |]; try reflexivity. apply Sqrt_fmul_PInf.
Qed.

Lemma Col_dataMx (x y : list float64) :
  length x = length y ->
  mat.Col (mat.rows (dataMx x y)) 0 (dataMx x y) = Ok x
  /\ mat.Col (mat.rows (dataMx x y)) 1 (dataMx x y) = Ok y.
Proof.
  intros Hxy. unfold mat.Col. cbn [dataMx mat.rows mat.cols mat.elem].
  rewrite Nat.eqb_refl. cbn [Nat.ltb Nat.leb negb Nat.eqb].
  split; [|rewrite Hxy]; rewrite map_nth_seq; reflexivity.
Qed.

Lemma Rev2_from_Rev1 (PCA : mat.Dense -> option stat.PC)
      (x y : list float64) (c : float64) :
  length x <> 0%nat -> length x = length y ->
  Rev2.NewWithConfidence PCA (Some (dataMx x y)) c
  = (e <- Rev1.NewDataConfidence PCA x y c ;;
     Ok (withCentre e (stat.Mean x) (stat.Mean y))).
Proof.
  intros Hx Hxy. unfold Rev2.NewWithConfidence, Rev1.NewDataConfidence.
  destruct (Col_dataMx x y Hxy) as [Hcx Hcy]. rewrite Hcx, Hcy. cbn [bind].
  assert (Hx' : (length x =? 0)%nat = false) by (apply Nat.eqb_neq; exact Hx).
  assert (Hy' : (length y =? 0)%nat = false) by (rewrite <- Hxy; exact Hx').
  assert (Hxy' : (length x =? length y)%nat = true) by (apply Nat.eqb_eq; exact Hxy).
  rewrite Hx', Hy', Hxy'. cbn [orb negb].
  destruct (fle c (Fin 0) || fgt c (Fin 1)) eqn:Hg; [reflexivity|].
  rewrite Rev1_build_data by assumption.
  destruct (PCA (dataMx x y)) as [pc|]; [|reflexivity].
  destruct (mat.At (stat.VectorsTo pc) 0 1) as [v01| |]; cbn [bind]; try reflexivity.
  destruct (mat.At (stat.VectorsTo pc) 0 0) as [v00| |]; cbn [bind]; try reflexivity.
  destruct (distuv.ChiSquared2_Quantile c) as [q| |] eqn:Hq; cbn [bind]; try reflexivity.
  destruct (index (stat.VarsTo pc) 0) as [l0| |]; cbn [bind]; try reflexivity.
  destruct (index (stat.VarsTo pc) 1) as [l1| |]; cbn [bind]; try reflexivity.
  unfold withCentre. cbn [Rev1.a Rev1.b Rev1.angle].
  rewrite !(Sqrt_fmul_agree c q) by assumption. reflexivity.
Qed.

Lemma Rev3_from_Rev2 (PCA : mat.Dense -> option stat.PC)
      (data : option mat.Dense) (c : float64) :
  Rev3.NewWithDataConfidence PCA data c
  = (e <- Rev2.NewWithConfidence PCA data c ;; Ok (toRev3 e)).
Proof.
  unfold Rev3.NewWithDataConfidence, Rev2.NewWithConfidence.
  destruct (fle c (Fin 0) || fgt c (Fin 1)); [reflexivity|].
  destruct data as [d|]; [|reflexivity].
  destruct (mat.Col (mat.rows d) 0 d) as [cx| |]; cbn [bind]; try reflexivity.
  destruct (mat.Col (mat.rows d) 1 d) as [cy| |]; cbn [bind]; try reflexivity.
  destruct (PCA d) as [pc|]; [|reflexivity].
  destruct (mat.At (stat.VectorsTo pc) 0 1) as [v01| |]; cbn [bind]; try reflexivity.
  destruct (mat.At (stat.VectorsTo pc) 0 0) as [v00| |]; cbn [bind]; try reflexivity.
  destruct (distuv.ChiSquared2_Quantile c) as [q| |]; cbn [bind]; try reflexivity.
  destruct (index (stat.VarsTo pc) 0) as [l0| |]; cbn [bind]; try reflexivity.
  destruct (index (stat.VarsTo pc) 1) as [l1| |]; cbn [bind]; reflexivity.
Qed.

Lemma LinePoints_short_same (size : Z) :
  (size < 2)%Z ->
  exists msg,
    (forall e, Rev1.LinePoints e size = Panic msg)
    /\ (forall e, Rev2.LinePoints e size = Panic msg)
    /\ (forall e, Rev3.LinePoints e size = Panic msg).
Proof.
  intros Hs. unfold Rev1.LinePoints, Rev2.LinePoints, Rev3.LinePoints, make.
  destruct (size <? 0)%Z eqn:Hneg; cbn [bind].
  - eexists. repeat split.
  - apply Z.ltb_ge in Hneg. unfold floats.Span, len.
    rewrite repeat_length, Z2Nat.id by lia.
    destruct (size <? 2)%Z eqn:H2; [|apply Z.ltb_ge in H2; lia].
    cbn [bind]. eexists. repeat split.
Qed.

Lemma translate_origin (p : plotter.XY) : translate (Fin 0) (Fin 0) p = p.
Proof.
  destruct p as [[x| | |] [y| | |]]; unfold translate; cbn; try reflexivity;
    f_equal; f_equal; lra.
Qed.

Lemma New_LinePoints_origin (a b angle : float64) (size : Z) :
  (e <- Rev2.New a b angle ;; Rev2.LinePoints e size)
  = (e <- Rev1.New a b angle ;; Rev1.LinePoints e size).
Proof.
  unfold Rev2.New, Rev1.New.
  destruct (fle a (Fin 0) || fle b (Fin 0)); cbn [bind]; [reflexivity|].
  destruct (Z_lt_le_dec size 2) as [Hs|Hs].
  - destruct (LinePoints_short_same size Hs) as (msg & H1 & H2 & _).
    rewrite H1, H2. reflexivity.
  - rewrite Rev1_LinePoints_eq, Rev2_LinePoints_eq by exact Hs.
    cbn [Rev1.a Rev1.b Rev1.angle Rev2.a Rev2.b Rev2.angle Rev2.xmean Rev2.ymean].
    f_equal. apply map_ext. intros i. apply translate_origin.
Qed.



(** ** The example program *)

Lemma CheckFloat_fadd_Fin (v : float64) (c : R) :
  plotter.CheckFloat (fadd v (Fin c)) = plotter.CheckFloat v.
Proof. destruct v; reflexivity. Qed.

(** Moving the points by a finite offset changes neither whether
    [CopyXYs] accepts them nor the error it returns. *)
Lemma CopyXYs_translate (cx cy : R) (pts : plotter.XYs) :
  plotter.CopyXYs (map (translate (Fin cx) (Fin cy)) pts)
  = (r <- plotter.CopyXYs pts ;; Ok (map (translate (Fin cx) (Fin cy)) r)).
Proof.
  unfold plotter.CopyXYs. induction pts as [|p pts IH]; cbn [map mapM bind].
  - reflexivity.
  - unfold translate at 1 2. cbn [plotter.X plotter.Y].
    rewrite !CheckFloat_fadd_Fin.
    destruct (plotter.CheckFloat (plotter.X p)); cbn [bind]; try reflexivity.
    destruct (plotter.CheckFloat (plotter.Y p)); cbn [bind]; try reflexivity.
    rewrite IH.
    destruct (mapM _ pts); cbn [bind map]; reflexivity.
Qed.



(** ** The eccentricity of an ellipse made from data *)

Lemma eccentricityOf_ordered (q : float64) (v0 v1 : R) :
  0 <= v1 <= v0 ->
  q = NaN \/ q = PInf \/ (exists r, q = Fin r /\ 0 < r) ->
  (eccentricityOf (math.Sqrt (fmul q (Fin v0))) (math.Sqrt (fmul q (Fin v1))) = NaN
   \/ eccentricityOf (math.Sqrt (fmul q (Fin v0))) (math.Sqrt (fmul q (Fin v1))) = Fin 0)
  /\ (v1 < v0 ->
      eccentricityOf (math.Sqrt (fmul q (Fin v0))) (math.Sqrt (fmul q (Fin v1))) = NaN).
Proof.
  intros Hv [-> | [-> | (r & -> & Hr)]].
  - split; [left|intros _]; reflexivity.
  - assert (H : eccentricityOf (math.Sqrt (fmul PInf (Fin v0)))
                               (math.Sqrt (fmul PInf (Fin v1))) = NaN).
    { cbn [fmul]. unfold signed.
      destruct (Rltb 0 v0) eqn:H0.
      - destruct (Rltb 0 v1) eqn:H1; [reflexivity|].
        destruct (Rltb v1 0); reflexivity.
      - destruct (Rltb v0 0); reflexivity. }
    rewrite H. split; [left|intros _]; reflexivity.
  - cbn [fmul]. rewrite !Sqrt_Fin by nra.
    assert (Hle : sqrt (r * v1) <= sqrt (r * v0)) by (apply sqrt_le_1; nra).
    assert (Hb : flt (Fin (sqrt (r * v1))) (Fin 0) = false).
    { apply Rltb_false. apply sqrt_pos. }
    split.
    + destruct (Rle_lt_or_eq_dec _ _ Hle) as [Hlt|Heq].
      * left. apply eccentricityOf_NaN; [exact Hb|]. apply Rltb_true. exact Hlt.
      * rewrite <- Heq. destruct (Req_dec (sqrt (r * v1)) 0) as [H0|H0].
        -- left. rewrite H0. unfold eccentricityOf, fmul, fdiv, signed.
           replace (0 * 0) with 0 by lra.
           assert (H00 : Rltb 0 0 = false) by (apply Rltb_false; lra).
           rewrite H00. reflexivity.
        -- right. apply eccentricityOf_equal_axes. exact H0.
    + intros Hlt. apply eccentricityOf_NaN; [exact Hb|]. apply Rltb_true.
      apply sqrt_lt_1; nra.
Qed.

Lemma Quantile_after_guard_cases (c q : float64) :
  fle c (Fin 0) || fgt c (Fin 1) = false ->
  distuv.ChiSquared2_Quantile c = Ok q ->
  q = NaN \/ q = PInf \/ (exists r, q = Fin r /\ 0 < r).
Proof.
  intros Hg Hq. destruct (confidence_guard c Hg) as [-> | (r & -> & Hr)].
  - cbn in Hq. injection Hq as <-. auto.
  - destruct (Quantile_cases r Hr) as [(_ & Hq' & Hpos) | (_ & Hq')];
      rewrite Hq' in Hq; injection Hq as <-; eauto.
Qed.



(** ** The rotation the stored angle gives *)

(** [Atan2] followed by [Cos] and [Sin] gives a unit vector back. *)
Lemma cos_sin_atan2R (y x : R) :
  x * x + y * y = 1 ->
  cos (math.atan2R y x) = x /\ sin (math.atan2R y x) = y.
Proof.
  intros Hu. unfold math.atan2R.
  destruct (Rltb 0 x) eqn:Hx; [|destruct (Rltb x 0) eqn:Hx'].
  - apply Rltb_true in Hx.
    assert (Hs : sqrt (1 + Rsqr (y / x)) = / x).
    { replace (1 + Rsqr (y / x)) with (Rsqr (/ x)).
      2:{ unfold Rsqr. transitivity ((x * x + y * y) * (/ x * / x));
          [rewrite Hu; ring | field; lra]. }
      apply sqrt_Rsqr. left. apply Rinv_0_lt_compat. exact Hx. }
    rewrite cos_atan, sin_atan, Hs. split; field; lra.
  - apply Rltb_true in Hx'.
    assert (Hs : sqrt (1 + Rsqr (y / x)) = - / x).
    { replace (1 + Rsqr (y / x)) with (Rsqr (- / x)).
      2:{ unfold Rsqr. transitivity ((x * x + y * y) * (/ x * / x));
          [rewrite Hu; ring | field; lra]. }
      apply sqrt_Rsqr. assert (/ x < 0) by (apply Rinv_lt_0_compat; exact Hx'). lra. }
    assert (Hc : cos (atan (y / x)) = - x) by (rewrite cos_atan, Hs; field; lra).
    assert (Hsn : sin (atan (y / x)) = - y) by (rewrite sin_atan, Hs; field; lra).
    destruct (Rltb y 0).
    + rewrite cos_minus, sin_minus, cos_PI, sin_PI, Hc, Hsn. split; lra.
    + rewrite neg_cos, neg_sin, Hc, Hsn. split; lra.
  - apply Rltb_false in Hx, Hx'. assert (x = 0) by lra. subst x.
    destruct (Rltb 0 y) eqn:Hy; [|destruct (Rltb y 0) eqn:Hy'].
    + apply Rltb_true in Hy. assert (y = 1) by nra. subst y.
      rewrite cos_PI2, sin_PI2. split; reflexivity.
    + apply Rltb_true in Hy'. assert (y = -1) by nra. subst y.
      rewrite cos_neg, sin_neg, cos_PI2, sin_PI2. split; lra.
    + apply Rltb_false in Hy, Hy'. exfalso. nra.
Qed.

Lemma rotateData_unit (y x : R) :
  x * x + y * y = 1 ->
  rotateData (shiftAngle (math.Atan2 (Fin y) (Fin x)))
  = [Fin x; Fin y; Fin (- y); Fin x].
Proof.
  intros Hu. destruct (cos_sin_atan2R y x Hu) as [Hc Hs].
  unfold shiftAngle, math.Atan2, flt.
  destruct (Rltb (math.atan2R y x) 0).
  - unfold rotateData, math.Pi. cbn [fmul fadd math.Cos math.Sin fneg].
    rewrite cos_plus, sin_plus, cos_2PI, sin_2PI, Hc, Hs.
    repeat f_equal; lra.
  - unfold rotateData. cbn [math.Cos math.Sin fneg]. rewrite Hc, Hs. reflexivity.
Qed.

Lemma first_row_unit (xs ys : list R) (l0 l1 : R) (V : mat.Dense) :
  directions_of xs ys l0 l1 V ->
  exists v00 v01,
    mat.At V 0 0 = Ok (Fin v00) /\ mat.At V 0 1 = Ok (Fin v01)
    /\ v00 * v00 + v01 * v01 = 1.
Proof.
  intros (v00 & v10 & v01 & v11 & Hr & Hc & H00 & H10 & H01 & _ & H).
  destruct H as (_ & _ & _ & _ & Hn0 & Hn1 & Hort).
  exists v00, v01. rewrite !At_ok by lia. rewrite H00, H01.
  repeat split.
  assert (E1 : v00 * v01 = - (v10 * v11)) by lra.
  assert (E2 : (v00 * v01) * (v00 * v01) = (v10 * v11) * (v10 * v11))
    by (rewrite E1; ring).
  assert (E3 : v01 * v01 = v10 * v10).
  { transitivity (v01 * v01 * (v00 * v00 + v10 * v10)); [rewrite Hn0; ring|].
    transitivity (v10 * v10 * (v01 * v01 + v11 * v11)); [|rewrite Hn1; ring].
    replace (v01 * v01 * (v00 * v00 + v10 * v10))
      with ((v00 * v01) * (v00 * v01) + v01 * v01 * (v10 * v10)) by ring.
    rewrite E2. ring. }
  lra.
Qed.

(** X16: the rotation matrix of [LinePoints] on an ellipse made from
    data.  When the principal components come with unit, orthogonal
    direction vectors, the stored angle [atan2(V01, V00)], shifted into
    [0, 2*Pi), gives back [cos = V00] and [sin = V01], so the matrix
    [LinePoints] builds from it is [[V00, V01], [-V01, V00]]: the first
    row of the matrix of direction vectors and its normal. *)
Theorem rotation_from_first_row (PCA : mat.Dense -> option stat.PC)
        (xs ys : list R) (l0 l1 : R) (pc : stat.PC) (c : float64) :
  directions_of xs ys l0 l1 (stat.VectorsTo pc) ->
  exists v00 v01,
    mat.elem (stat.VectorsTo pc) 0 0 = Fin v00
    /\ mat.elem (stat.VectorsTo pc) 0 1 = Fin v01
    /\ v00 * v00 + v01 * v01 = 1
    /\ (forall x y e,
           PCA (dataMx x y) = Some pc ->
           Rev1.NewDataConfidence PCA x y c = Ok e ->
           rotateData (Rev1.angle e) = [Fin v00; Fin v01; Fin (- v01); Fin v00])
    /\ (forall d e,
           PCA d = Some pc ->
           Rev2.NewWithConfidence PCA (Some d) c = Ok e ->
           rotateData (Rev2.angle e) = [Fin v00; Fin v01; Fin (- v01); Fin v00])
    /\ (forall d e,
           PCA d = Some pc ->
           Rev3.NewWithDataConfidence PCA (Some d) c = Ok e ->
           rotateData (Rev3.angle e) = [Fin v00; Fin v01; Fin (- v01); Fin v00]).
Proof.
  intros Hdirs.
  destruct (first_row_unit _ _ _ _ _ Hdirs) as (v00 & v01 & H00 & H01 & Hu).
  exists v00, v01.
  split; [apply At_Ok_inv in H00; symmetry; apply H00|].
  split; [apply At_Ok_inv in H01; symmetry; apply H01|].
  split; [exact Hu|].
  split; [|split].
  - intros x y e Hpc He. apply Rev1_NewDataConfidence_inv in He.
    destruct He as (_ & _ & _ & pc' & q & w0 & w1 & u01 & u00 & He).
    destruct He as (Hpc' & _ & _ & _ & E01 & E00 & ->).
    rewrite Hpc in Hpc'. injection Hpc' as <-.
    rewrite H01 in E01. rewrite H00 in E00. injection E01 as <-. injection E00 as <-.
    cbn [Rev1.angle]. apply rotateData_unit. exact Hu.
  - intros d e Hpc He. apply Rev2_NewWithConfidence_inv in He.
    destruct He as (_ & d' & cx & cy & pc' & q & w0 & w1 & u01 & u00 & He).
    destruct He as (Hd & _ & _ & Hpc' & _ & _ & _ & E01 & E00 & ->).
    injection Hd as <-. rewrite Hpc in Hpc'. injection Hpc' as <-.
    rewrite H01 in E01. rewrite H00 in E00. injection E01 as <-. injection E00 as <-.
    cbn [Rev2.angle]. apply rotateData_unit. exact Hu.
  - intros d e Hpc He. apply Rev3_NewWithDataConfidence_inv in He.
    destruct He as (_ & d' & cx & cy & pc' & q & w0 & w1 & u01 & u00 & He).
    destruct He as (Hd & _ & _ & Hpc' & _ & _ & _ & E01 & E00 & ->).
    injection Hd as <-. rewrite Hpc in Hpc'. injection Hpc' as <-.
    rewrite H01 in E01. rewrite H00 in E00. injection E01 as <-. injection E00 as <-.
    cbn [Rev3.angle]. apply rotateData_unit. exact Hu.
Qed.

Lemma rotation_from_first_row_witness :
  directions_of tiltX tiltY (200/3) (50/3) (stat.VectorsTo tiltPC)
  /\ exists v00 v01,
    mat.elem (stat.VectorsTo tiltPC) 0 0 = Fin v00
    /\ mat.elem (stat.VectorsTo tiltPC) 0 1 = Fin v01
    /\ v00 * v00 + v01 * v01 = 1
    /\ (forall x y e,
           answering tiltPC (dataMx x y) = Some tiltPC ->
           Rev1.NewDataConfidence (answering tiltPC) x y (Fin 0.95) = Ok e ->
           rotateData (Rev1.angle e) = [Fin v00; Fin v01; Fin (- v01); Fin v00])
    /\ (forall d e,
           answering tiltPC d = Some tiltPC ->
           Rev2.NewWithConfidence (answering tiltPC) (Some d) (Fin 0.95) = Ok e ->
           rotateData (Rev2.angle e) = [Fin v00; Fin v01; Fin (- v01); Fin v00])
    /\ (forall d e,
           answering tiltPC d = Some tiltPC ->
           Rev3.NewWithDataConfidence (answering tiltPC) (Some d) (Fin 0.95) = Ok e ->
           rotateData (Rev3.angle e) = [Fin v00; Fin v01; Fin (- v01); Fin v00]).
Proof.
  split; [exact (proj2 tilt_valid)|].
  exact (rotation_from_first_row (answering tiltPC) tiltX tiltY (200/3) (50/3) tiltPC
           (Fin 0.95) (proj2 tilt_valid)).
Defined.

(** ** The eccentricity of an ellipse made by [New] *)

Lemma eccentricityOf_minor_major (a b : R) :
  0 < a -> a <= b ->
  exists ecc,
    eccentricityOf (Fin a) (Fin b) = Fin ecc
    /\ ecc * ecc = 1 - (a * a) / (b * b)
    /\ 0 <= ecc < 1
    /\ (ecc = 0 <-> a = b).
Proof.
  intros Ha Hab.
  assert (Hbb : 0 < b * b) by nra.
  assert (Hq : 0 < a * a / (b * b) <= 1).
  { split; [apply Rdiv_lt_0_compat; nra|].
    apply Rmult_le_reg_r with (b * b); [exact Hbb|].
    unfold Rdiv. rewrite Rmult_assoc, Rinv_l by lra. nra. }
  exists (sqrt (1 - a * a / (b * b))).
  split; [|split; [|split]].
  - unfold eccentricityOf, fmul, fdiv.
    assert (H : Rltb 0 (b * b) = true) by (apply Rltb_true; exact Hbb).
    rewrite H. unfold fsub, fneg, fadd. rewrite Sqrt_Fin by lra.
    reflexivity.
  - apply sqrt_sqrt. lra.
  - split; [apply sqrt_pos|].
    apply Rlt_le_trans with (sqrt 1); [apply sqrt_lt_1; lra | rewrite sqrt_1; lra].
  - split.
    + intros H0. apply sqrt_eq_0 in H0; [|lra].
      assert (E : a * a / (b * b) = 1) by lra.
      apply (f_equal (fun v => v * (b * b))) in E.
      unfold Rdiv in E. rewrite Rmult_assoc, Rinv_l in E by lra. nra.
    + intros <-. replace (1 - a * a / (a * a)) with 0 by (field; lra).
      apply sqrt_0.
Qed.



(** ** The outcomes of the constructors from a matrix *)

Lemma Col_Ok_iff (d : mat.Dense) (j : nat) :
  (exists col, mat.Col (mat.rows d) j d = Ok col) <-> (j < mat.cols d)%nat.
Proof.
  unfold mat.Col. rewrite Nat.eqb_refl. cbn [negb].
  destruct (j <? mat.cols d)%nat eqn:Hj; cbn [negb].
  - apply Nat.ltb_lt in Hj. split; [auto | eexists; reflexivity].
  - apply Nat.ltb_ge in Hj. split; [intros [col H]; discriminate | lia].
Qed.

(** X18: past the confidence check the constructors that take a matrix
    return an ellipse exactly when the matrix is not nil and has at least
    two columns, and the principal component analysis of it succeeds
    with at least two variances and a matrix of direction vectors that
    has the entries (0,0) and (0,1); in every other case they panic. *)
Theorem NewWithConfidence_succeeds_iff (PCA : mat.Dense -> option stat.PC)
        (data : option mat.Dense) (c : float64) :
  fle c (Fin 0) || fgt c (Fin 1) = false ->
  ((exists e, Rev2.NewWithConfidence PCA data c = Ok e)
   <-> exists d pc,
      data = Some d /\ (2 <= mat.cols d)%nat
      /\ PCA d = Some pc
      /\ (2 <= length (stat.VarsTo pc))%nat
      /\ (0 < mat.rows (stat.VectorsTo pc))%nat
      /\ (2 <= mat.cols (stat.VectorsTo pc))%nat)
  /\ ((exists e, Rev3.NewWithDataConfidence PCA data c = Ok e)
      <-> exists e, Rev2.NewWithConfidence PCA data c = Ok e)
  /\ ((forall e, Rev2.NewWithConfidence PCA data c <> Ok e) ->
      is_panic (Rev2.NewWithConfidence PCA data c))
  /\ ((forall e, Rev3.NewWithDataConfidence PCA data c <> Ok e) ->
      is_panic (Rev3.NewWithDataConfidence PCA data c)).
Proof.
  intros Hg. split; [|split; [|split]].
  - split.
    + intros [e He]. apply Rev2_NewWithConfidence_inv in He.
      destruct He as (_ & d & cx & cy & pc & q & l0 & l1 & v01 & v00 & He).
      destruct He as (Hd & _ & Hcy & Hpc & _ & _ & Hl1 & H01 & _ & _).
      exists d, pc. apply At_Ok_inv in H01.
      assert (1 < length (stat.VarsTo pc))%nat
        by (apply index_Ok_iff; eexists; exact Hl1).
      assert (1 < mat.cols d)%nat by (apply Col_Ok_iff; eexists; exact Hcy).
      repeat split; try assumption; lia.
    + intros (d & pc & -> & Hc & Hpc & Hv & Hr & Hcl).
      destruct (Quantile_after_guard c Hg) as [q Hq].
      destruct (proj2 (index_Ok_iff (stat.VarsTo pc) 0) ltac:(lia)) as [l0 Hl0].
      destruct (proj2 (index_Ok_iff (stat.VarsTo pc) 1) ltac:(lia)) as [l1 Hl1].
      destruct (proj2 (Col_Ok_iff d 0) ltac:(lia)) as [cx Hcx].
      destruct (proj2 (Col_Ok_iff d 1) ltac:(lia)) as [cy Hcy].
      eexists.
      apply (Rev2_NewWithConfidence_eq PCA d c cx cy pc q l0 l1
               (mat.elem (stat.VectorsTo pc) 0 1) (mat.elem (stat.VectorsTo pc) 0 0));
        auto; apply At_ok; lia.
  - rewrite Rev3_from_Rev2.
    destruct (Rev2.NewWithConfidence PCA data c) as [e| |]; cbn [bind].
    + split; intros _; eexists; reflexivity.
    + split; intros [e' H]; discriminate.
    + split; intros [e' H]; discriminate.
  - intros Hno.
    destruct (Rev2.NewWithConfidence PCA data c) as [e|err|msg] eqn:E.
    + exfalso. exact (Hno e eq_refl).
    + exfalso. apply (Rev2_NewWithConfidence_no_error PCA data c Hg).
      rewrite E. eexists; reflexivity.
    + eexists; reflexivity.
  - intros Hno.
    destruct (Rev3.NewWithDataConfidence PCA data c) as [e|err|msg] eqn:E.
    + exfalso. exact (Hno e eq_refl).
    + exfalso. apply (Rev3_NewWithDataConfidence_no_error PCA data c Hg).
      rewrite E. eexists; reflexivity.
    + eexists; reflexivity.
Qed.

Lemma NewWithConfidence_succeeds_iff_witness :
  fle (Fin 0.95) (Fin 0) || fgt (Fin 0.95) (Fin 1) = false
  /\ (exists e, Rev3.NewWithDataConfidence (answering twicePC) (Some twiceMx)
                  (Fin 0.95) = Ok e)
  /\ is_panic (Rev3.NewWithDataConfidence (answering twicePC) None (Fin 0.95))
  /\ is_panic (Rev3.NewWithDataConfidence (fun _ => None) (Some twiceMx) (Fin 0.95)).
Proof.
  assert (Hg : fle (Fin 0.95) (Fin 0) || fgt (Fin 0.95) (Fin 1) = false)
    by (unfold fle, fgt, flt; Rdec; reflexivity).
  split; [exact Hg|].
  pose proof (NewWithConfidence_succeeds_iff (answering twicePC) (Some twiceMx)
                (Fin 0.95) Hg) as (H2 & H3 & _ & _).
  split; [|split].
  - apply H3, H2. exists twiceMx, twicePC. cbn. repeat split; lia.
  - unfold Rev3.NewWithDataConfidence. rewrite Hg. eexists; reflexivity.
  - unfold Rev3.NewWithDataConfidence. rewrite Hg. eexists; reflexivity.
Defined.
